(** * Loan-assistant chat front end: trace routing and flow visualisation

    A shallow embedding of
      - [AgentFlowNodeConfig.tsx]  (initial nodes, edges, node details),
      - [AgentFlowPanel]           (edge statistics, node traces, the
                                    imperative handle of the panel),
      - [ChatMessages.tsx]         (trace classifier, subscription handler,
                                    subscription effect, grouped turns,
                                    document previews).

    Conventions.
      - A JavaScript object used as a dictionary is a [gmap string _]; a
        property read goes through [obj_get], which also accounts for the
        names every object inherits from [Object.prototype].
      - [undefined] is [None]; an optional property is an [option] field.
      - A state updater passed to a React setter is the state transition;
        an updater that dereferences [undefined] raises [TypeError].  The
        effect that depends on [edgeStats] is run with every change of it.
      - A handler runs to completion at one reading of the clock; timers
        run when time is let pass.  [new Date()] is that reading.
      - Strings are byte strings (UTF-8); the only characters inspected
        are ASCII.
      - Presentation-only properties (positions, CSS, label styles) are
        left out of the records. *)

From stdpp Require Import gmap strings list pretty.
From Stdlib Require Import Ascii.

Set Warnings "-register-all".
Local Open Scope string_scope.
Local Open Scope list_scope.
Local Open Scope nat_scope.

(** ** JavaScript values *)

Inductive exn := TypeError | SyntaxError.

Inductive Result (A : Type) :=
  | Ok (a : A)
  | Throw (e : exn).
Arguments Ok {A} a.
Arguments Throw {A} e.

(** A finite or infinite IEEE double as [JSON.parse] can produce it:
    [(-1)^neg * mant * 2^expo], or an infinity. *)
Inductive double :=
  | DFin (neg : bool) (mant : N) (expo : Z)
  | DInf (neg : bool).

(** The result of [JSON.parse]; an object is the list of its own
    properties, each name occurring once. *)
Inductive json :=
  | JNull
  | JBool (b : bool)
  | JNum (d : double)
  | JStr (s : string)
  | JArr (items : list json)
  | JObj (fields : list (string * json)).

(** A JavaScript value that came out of a JSON document, or [undefined]. *)
Abbreviation jsval := (option json).

(** [ToBoolean]. *)
Definition truthy (v : jsval) : bool :=
  match v with
  | None | Some JNull => false
  | Some (JBool b) => b
  | Some (JNum (DFin _ m _)) => negb (N.eqb m 0)
  | Some (JNum (DInf _)) => true
  | Some (JStr s) => negb (String.eqb s EmptyString)
  | Some (JArr _) | Some (JObj _) => true
  end.

(** [s] as an optional string property ([string | null | undefined]). *)
Definition truthy_str (s : option string) : bool :=
  match s with
  | Some t => negb (String.eqb t EmptyString)
  | None => false
  end.

Fixpoint assoc (k : string) (fs : list (string * json)) : jsval :=
  match fs with
  | [] => None
  | (k', v) :: fs' => if String.eqb k k' then Some v else assoc k fs'
  end.

(** [v.k] for a non-nullish [v] and a name [k] that no built-in prototype
    defines (trace, content, action, collaboratorName, text). *)
Definition prop (k : string) (v : json) : jsval :=
  match v with
  | JObj fs => assoc k fs
  | _ => None
  end.

(** [v?.k] *)
Definition opt_chain (v : jsval) (k : string) : jsval :=
  match v with
  | None | Some JNull => None
  | Some o => prop k o
  end.

(** [v.k] on a value that may be [null]: reading a property of [null]
    raises. *)
Definition member (v : json) (k : string) : Result jsval :=
  match v with
  | JNull => Throw TypeError
  | o => Ok (prop k o)
  end.

(** [v === s] for a string literal [s]. *)
Definition is_str (v : jsval) (s : string) : bool :=
  match v with
  | Some (JStr t) => String.eqb t s
  | _ => false
  end.

(** [v || ''] *)
Definition or_empty (v : jsval) : json :=
  match v with
  | Some j => if truthy v then j else JStr EmptyString
  | None => JStr EmptyString
  end.

(** Names that a lookup on any plain object resolves through
    [Object.prototype] when the object has no own property of that name. *)
Definition Object_prototype_keys : list string :=
  [ "constructor"; "hasOwnProperty"; "isPrototypeOf"; "propertyIsEnumerable";
    "toLocaleString"; "toString"; "valueOf"; "__proto__";
    "__defineGetter__"; "__defineSetter__";
    "__lookupGetter__"; "__lookupSetter__" ].

(** [o[k]] on a dictionary object.  An inherited member has no own
    enumerable property, so it reads and spreads like [bare], the record
    with every property absent. *)
Definition obj_get {V : Type} (bare : V) (o : gmap string V) (k : string)
  : option V :=
  match o !! k with
  | Some v => Some v
  | None => if bool_decide (k ∈ Object_prototype_keys) then Some bare else None
  end.

(** ** Graph data: AgentFlowNodeConfig.tsx *)

Module bedrockColors.
Definition primary := "#006ce0".
Definition success := "#008559".
Definition warning := "#fa6f00".
Definition error := "#d14600".
Definition teal := "#00a4bd".
End bedrockColors.

Record CustomNodeData := {
  label : string;
  borderColor : option string;
  isProcessing : option bool;
  processingComplete : option bool
}.

Record CustomNode := {
  node_id : string;
  data : CustomNodeData
}.

Record Edge := {
  edge_id : string;
  source : string;
  target : string;
  animated : bool;
  edge_label : option string;
  stroke : string
}.

Definition mkNode (i l c : string) : CustomNode :=
  {| node_id := i;
     data := {| label := l; borderColor := Some c;
                isProcessing := None; processingComplete := None |} |}.

Definition createInitialLoanNodes : list CustomNode :=
  [ mkNode "user" "User" bedrockColors.primary;
    mkNode "supervisor" "Supervisor" bedrockColors.error;
    mkNode "loanApplicant" "Loan Applicant Agent" bedrockColors.success;
    mkNode "broker" "Broker Agent" bedrockColors.warning;
    mkNode "response" "Response" bedrockColors.teal ].

Definition mkEdge (i s t c : string) : Edge :=
  {| edge_id := i; source := s; target := t; animated := false;
     edge_label := None; stroke := c |}.

Definition createInitialLoanEdges : list Edge :=
  [ mkEdge "e-user-supervisor" "user" "supervisor" bedrockColors.primary;
    mkEdge "e-supervisor-loanApplicant" "supervisor" "loanApplicant"
           bedrockColors.success;
    mkEdge "e-supervisor-broker" "supervisor" "broker" bedrockColors.warning;
    mkEdge "e-supervisor-response" "supervisor" "response" bedrockColors.teal ].

(** ** Panel state: AgentFlowPanel *)

Record NodeTrace := {
  timestamp : nat;   (* the instant, in ms, whose ISO-8601 text is stored *)
  text : json
}.

Record NodeDetails := {
  title : option string;
  description : option string;
  details : option string;
  traces : option (list NodeTrace)
}.

Definition mkDetails (t d x : string) : NodeDetails :=
  {| title := Some t; description := Some d; details := Some x;
     traces := None |}.

Definition bareDetails : NodeDetails :=
  {| title := None; description := None; details := None; traces := None |}.

Definition loanNodeDetailsMap : gmap string NodeDetails :=
  <["supervisor" := mkDetails "Loan Processing Supervisor"
      "Coordinates the loan application process and manages specialized agents."
      "This agent evaluates user queries, directs requests to appropriate specialized agents, and synthesizes responses to provide comprehensive loan application assistance."]>
  (<["loanApplicant" := mkDetails "Loan Application Assistant Agent"
      "Specializes in applicant evaluation and document verification."
      "Handles document verification, credit assessment, income validation, and eligibility checking. Ensures all applicant information meets lending requirements and compliance standards."]>
  (<["broker" := mkDetails "Broker Agent"
      "Manages loan products, rates, and application processing."
      "Evaluates loan options, provides rate information, explains terms and conditions, and facilitates the application process. Ensures optimal loan product matching based on applicant profile."]>
  (<["user" := mkDetails "User"
      "Loan applicant or inquirer seeking assistance."
      "The end user who interacts with the system to get information about loans, submit applications, or check application status."]>
  (<["response" := mkDetails "Response to User"
      "Final processed response to the user query."
      "Synthesized information from all relevant agents, providing clear and actionable loan-related guidance or updates."]>
  ∅)))).

(** [callCount] starts at [0] and only ever has [1] added, so as a Number
    it is a natural number (exact far beyond any session's length) or, once
    [undefined + 1] has been computed, [NaN]. *)
Inductive count :=
  | Count (n : N)
  | NaN.

Record EdgeStats := {
  callCount : option count;
  isAnimated : option bool
}.

Definition bareStats : EdgeStats :=
  {| callCount := None; isAnimated := None |}.

Definition initialEdgeStats : gmap string EdgeStats :=
  let zero := {| callCount := Some (Count 0); isAnimated := Some false |} in
  <["e-user-supervisor" := zero]>
  (<["e-supervisor-loanApplicant" := zero]>
  (<["e-supervisor-broker" := zero]>
  (<["e-supervisor-response" := zero]> ∅))).

Record Panel := {
  nodes : list CustomNode;
  edges : list Edge;
  nodeDetailsMap : gmap string NodeDetails;
  edgeStats : gmap string EdgeStats
}.

(** [x + 1] on a count or [undefined]. *)
Definition plus_one (c : option count) : count :=
  match c with
  | Some (Count n) => Count (n + 1)%N
  | Some NaN | None => NaN
  end.

(** [c > 0 ? `${c} calls` : ''] *)
Definition calls_label (c : option count) : string :=
  match c with
  | Some (Count n) =>
      if N.ltb 0 n then pretty n +:+ " calls" else EmptyString
  | Some NaN | None => EmptyString
  end.

(** The effect that re-derives the displayed edges from [edgeStats]. *)
Definition syncEdge (stats : gmap string EdgeStats) (e : Edge) : Edge :=
  let s := obj_get bareStats stats (edge_id e) in
  {| edge_id := edge_id e; source := source e; target := target e;
     animated := default false (s ≫= isAnimated);
     edge_label := Some (calls_label (s ≫= callCount));
     stroke := stroke e |}.

Definition syncEdges (p : Panel) : Panel :=
  {| nodes := nodes p;
     edges := map (syncEdge (edgeStats p)) (edges p);
     nodeDetailsMap := nodeDetailsMap p;
     edgeStats := edgeStats p |}.

(** [setEdgeStats(updater)], followed by the effect that depends on
    [edgeStats]. *)
Definition setEdgeStats
    (updater : gmap string EdgeStats → Result (gmap string EdgeStats))
    (p : Panel) : Result Panel :=
  match updater (edgeStats p) with
  | Ok stats =>
      Ok (syncEdges {| nodes := nodes p; edges := edges p;
                       nodeDetailsMap := nodeDetailsMap p;
                       edgeStats := stats |})
  | Throw e => Throw e
  end.

Definition setNodes (updater : list CustomNode → list CustomNode)
    (p : Panel) : Result Panel :=
  Ok {| nodes := updater (nodes p); edges := edges p;
        nodeDetailsMap := nodeDetailsMap p; edgeStats := edgeStats p |}.

Definition setNodeDetailsMap
    (updater : gmap string NodeDetails → Result (gmap string NodeDetails))
    (p : Panel) : Result Panel :=
  match updater (nodeDetailsMap p) with
  | Ok m => Ok {| nodes := nodes p; edges := edges p;
                  nodeDetailsMap := m; edgeStats := edgeStats p |}
  | Throw e => Throw e
  end.

(** *** The imperative handle *)

Definition updateEdgeAnimation (edgeId : string) (flag : bool)
  : Panel → Result Panel :=
  setEdgeStats (λ prev,
    let old := default bareStats (obj_get bareStats prev edgeId) in
    Ok (<[edgeId := {| callCount := callCount old;
                       isAnimated := Some flag |}]> prev)).

Definition incrementEdgeCount (edgeId : string) : Panel → Result Panel :=
  setEdgeStats (λ prev,
    match obj_get bareStats prev edgeId with
    | Some old =>
        Ok (<[edgeId := {| callCount := Some (plus_one (callCount old));
                           isAnimated := isAnimated old |}]> prev)
    | None => Throw TypeError
    end).

(** The partial flags object handed to [updateNodeState]. *)
Record NodeFlags := {
  set_isProcessing : option bool;
  set_processingComplete : option bool
}.

Definition merge_flags (d : CustomNodeData) (s : NodeFlags) : CustomNodeData :=
  {| label := label d; borderColor := borderColor d;
     isProcessing := match set_isProcessing s with
                     | Some b => Some b
                     | None => isProcessing d
                     end;
     processingComplete := match set_processingComplete s with
                           | Some b => Some b
                           | None => processingComplete d
                           end |}.

Definition updateNodeState (nodeId : string) (s : NodeFlags)
  : Panel → Result Panel :=
  setNodes (map (λ node,
    if String.eqb (node_id node) nodeId
    then {| node_id := node_id node; data := merge_flags (data node) s |}
    else node)).

Definition addNodeTrace (nodeId : string) (trace : NodeTrace)
  : Panel → Result Panel :=
  setNodeDetailsMap (λ prev,
    match obj_get bareDetails prev nodeId with
    | Some old =>
        Ok (<[nodeId := {| title := title old; description := description old;
                           details := details old;
                           traces := Some (default [] (traces old) ++ [trace])
                        |}]> prev)
    | None => Throw TypeError
    end).

(** The panel as first displayed: the initial props, with the edge effect
    run once on mount. *)
Definition initialPanel : Panel :=
  syncEdges {| nodes := createInitialLoanNodes;
               edges := createInitialLoanEdges;
               nodeDetailsMap := loanNodeDetailsMap;
               edgeStats := initialEdgeStats |}.

(** ** The feed controller's world: ChatMessages.tsx *)

(** One record of the chat feed, as listed and as pushed. *)
Record Chat := {
  chat_id : string;
  human : option string;
  bot : option string;
  payload : option string;
  createdAt : string
}.

(** The only callbacks ever handed to [setTimeout] by the classifier:
    [() => agentFlowRef.current?.updateEdgeAnimation(edgeId, false)]. *)
Inductive TimerCallback :=
  | ClearEdgeAnimation (edgeId : string).

Record Timer := {
  due : nat;
  callback : TimerCallback
}.

(** A console line: its message text (the objects logged with it are not
    kept). *)
Inductive ConsoleEntry :=
  | Log (msg : string)
  | Error (msg : string).

Record World := {
  agentFlowRef : option Panel;   (* agentFlowRef.current *)
  timers : list Timer;           (* pending timers, earliest first *)
  clock : nat;                   (* ms *)
  console : list ConsoleEntry;
  refetches : nat;               (* calls of refetch() *)
  newMessages : nat              (* calls of onNewMessage() by [next] *)
}.

Definition M (A : Type) : Type := World → Result A * World.

#[export] Instance M_ret : MRet M := λ A a w, (Ok a, w).
#[export] Instance M_bind : MBind M := λ A B f m w,
  match m w with
  | (Ok a, w') => f a w'
  | (Throw e, w') => (Throw e, w')
  end.

Definition throw {A : Type} (e : exn) : M A := λ w, (Throw e, w).

Definition lift {A : Type} (r : Result A) : M A :=
  match r with
  | Ok a => mret a
  | Throw e => throw e
  end.

Definition try_catch (body : M unit) (handler : exn → M unit) : M unit :=
  λ w, match body w with
       | (Ok a, w') => (Ok a, w')
       | (Throw e, w') => handler e w'
       end.

Definition with_ref (r : option Panel) (w : World) : World :=
  {| agentFlowRef := r; timers := timers w; clock := clock w;
     console := console w; refetches := refetches w;
     newMessages := newMessages w |}.

Definition with_timers (ts : list Timer) (w : World) : World :=
  {| agentFlowRef := agentFlowRef w; timers := ts; clock := clock w;
     console := console w; refetches := refetches w;
     newMessages := newMessages w |}.

Definition with_console (c : list ConsoleEntry) (w : World) : World :=
  {| agentFlowRef := agentFlowRef w; timers := timers w; clock := clock w;
     console := c; refetches := refetches w; newMessages := newMessages w |}.

Definition console_log (msg : string) : M unit :=
  λ w, (Ok (), with_console (console w ++ [Log msg]) w).

Definition console_error (msg : string) : M unit :=
  λ w, (Ok (), with_console (console w ++ [Error msg]) w).

Definition now : M nat := λ w, (Ok (clock w), w).

(** [agentFlowRef.current?.call(...)]: skipped while no panel is attached.
    A state updater that raises is taken to raise at the call, and the
    panel is kept; React raises when it applies the updater, with the next
    render of the panel.  In a [good] world no updater raises. *)
Definition agentFlow (call : Panel → Result Panel) : M unit :=
  λ w, match agentFlowRef w with
       | None => (Ok (), w)
       | Some p =>
           match call p with
           | Ok p' => (Ok (), with_ref (Some p') w)
           | Throw e => (Throw e, w)
           end
       end.

(** Timers fire in order of their due time, and in order of registration
    among equal due times. *)
Fixpoint enqueue (t : Timer) (q : list Timer) : list Timer :=
  match q with
  | [] => [t]
  | t' :: q' => if Nat.leb (due t') (due t) then t' :: enqueue t q' else t :: q
  end.

Definition setTimeout (cb : TimerCallback) (delay : nat) : M unit :=
  λ w, (Ok (), with_timers
                 (enqueue {| due := clock w + delay; callback := cb |}
                          (timers w)) w).

Definition refetch : M unit :=
  λ w, (Ok (), {| agentFlowRef := agentFlowRef w; timers := timers w;
                  clock := clock w; console := console w;
                  refetches := S (refetches w);
                  newMessages := newMessages w |}).

Definition onNewMessage : M unit :=
  λ w, (Ok (), {| agentFlowRef := agentFlowRef w; timers := timers w;
                  clock := clock w; console := console w;
                  refetches := refetches w;
                  newMessages := S (newMessages w) |}).

Definition when (b : bool) (m : M unit) : M unit :=
  if b then m else mret ().

(** *** The trace classifier *)

Definition loan_agent : string := "loan_application_assistant_agent".

Definition collaboratorNode (name : jsval) : string :=
  if is_str name loan_agent then "loanApplicant" else "broker".

(** [trace?.content?.action], [...?.collaboratorName], [...?.text] *)
Definition trace_action (trace : json) : jsval :=
  opt_chain (opt_chain (Some trace) "content") "action".
Definition trace_collaborator (trace : json) : jsval :=
  opt_chain (opt_chain (Some trace) "content") "collaboratorName".
Definition trace_text (trace : json) : jsval :=
  opt_chain (opt_chain (Some trace) "content") "text".

(** The [if] / [else if] chain of [handleTraceUpdate]. *)
Definition classify (trace : json) (traceEntry : NodeTrace) : M unit :=
  if is_str (trace_action trace) "modelInvocationInput"
     && negb (truthy (trace_collaborator trace))
  then
    console_log "First call detected";;
    when (truthy (trace_text trace))
      (agentFlow (addNodeTrace "supervisor" traceEntry));;
    agentFlow (updateEdgeAnimation "e-user-supervisor" true);;
    agentFlow (updateEdgeAnimation "e-supervisor-response" true);;
    setTimeout (ClearEdgeAnimation "e-user-supervisor") 2000
  else if is_str (trace_action trace) "modelInvocationOutput"
          && truthy (trace_collaborator trace)
  then
    let nodeId := collaboratorNode (trace_collaborator trace) in
    when (truthy (trace_text trace))
      (agentFlow (addNodeTrace nodeId traceEntry));;
    agentFlow (incrementEdgeCount ("e-supervisor-" +:+ nodeId));;
    agentFlow (updateEdgeAnimation ("e-supervisor-" +:+ nodeId) true);;
    setTimeout (ClearEdgeAnimation ("e-supervisor-" +:+ nodeId)) 2000
  else if is_str (trace_action trace) "modelInvocationOutput"
          && negb (truthy (trace_collaborator trace))
  then
    when (truthy (trace_text trace))
      (agentFlow (addNodeTrace "supervisor" traceEntry))
  else mret ().

(** The closing [if (chatData?.onChatByUserId?.bot)] block of
    [handleTraceUpdate]. *)
Definition respond (chatData : option Chat) : M unit :=
  match chatData ≫= bot with
  | Some reply =>
      when (truthy_str (Some reply))
        (t ← now;
         let responseTrace := {| timestamp := t; text := JStr reply |} in
         agentFlow (addNodeTrace "response" responseTrace);;
         setTimeout (ClearEdgeAnimation "e-supervisor-response") 2000)
  | None => mret ()
  end.

Definition handleTraceUpdate (trace : json) (chatData : option Chat)
  : M unit :=
  console_log "Processing trace:";;
  t ← now;
  let traceEntry := {| timestamp := t; text := or_empty (trace_text trace) |} in
  classify trace traceEntry;;
  respond chatData.

(** *** The subscription handler and the event loop *)

Section Feed.

(** [JSON.parse]; [None] stands for the [SyntaxError] it raises. *)
Variable JSON_parse : string → option json.

Definition parse (s : string) : M json :=
  match JSON_parse s with
  | Some j => mret j
  | None => throw SyntaxError
  end.

(** The [next] callback of the subscription. *)
Definition next (d : option Chat) : M unit :=
  console_log "New chat message received:";;
  match d ≫= payload with
  | Some p =>
      when (truthy_str (Some p))
        (try_catch
           (parsedPayload ← parse p;
            tr ← lift (member parsedPayload "trace");
            if truthy tr then handleTraceUpdate (default JNull tr) d
            else if truthy_str (d ≫= bot) then handleTraceUpdate JNull d
            else mret ())
           (λ _, console_error "Error processing chat payload:"))
  | None => mret ()
  end;;
  refetch;;
  onNewMessage.

(** Running one timer callback. *)
Definition fire (t : Timer) : M unit :=
  match callback t with
  | ClearEdgeAnimation edgeId =>
      agentFlow (updateEdgeAnimation edgeId false)
  end.

Fixpoint fire_all (ts : list Timer) : M unit :=
  match ts with
  | [] => mret ()
  | t :: ts' => fire t;; fire_all ts'
  end.

(** Letting [dt] ms pass: every timer that has become due runs. *)
Definition advance (dt : nat) : M unit :=
  λ w,
    let c := clock w + dt in
    let ready := filter (λ t, due t ≤ c) (timers w) in
    let later := filter (λ t, ¬ due t ≤ c) (timers w) in
    fire_all ready
      {| agentFlowRef := agentFlowRef w; timers := later; clock := c;
         console := console w; refetches := refetches w;
         newMessages := newMessages w |}.

Inductive Step :=
  | Deliver (d : option Chat)
  | Advance (dt : nat).

Definition step (s : Step) : M unit :=
  match s with
  | Deliver d => next d
  | Advance dt => advance dt
  end.

(** The world after a run of steps; the event loop goes on whatever a
    step returned.  A run is made of the events delivered to the
    subscription handler and of the time let pass for the classifier's
    timers; the effect on [chats], which signals new messages too, is not
    part of it. *)
Fixpoint run (ss : list Step) (w : World) : World :=
  match ss with
  | [] => w
  | s :: ss' => run ss' (snd (step s w))
  end.

End Feed.

Definition initialWorld : World :=
  {| agentFlowRef := Some initialPanel; timers := []; clock := 0;
     console := []; refetches := 0; newMessages := 0 |}.

(** *** Subscription life cycle *)

(** The dependency list that decides whether the subscription effect runs
    again: [authedUser?.userID], and the identities of [refetch],
    [onNewMessage] and [handleTraceUpdate] (one token for the three). *)
Record Deps := {
  userID : option string;
  callbacks : nat
}.

#[export] Instance Deps_eq_dec : EqDecision Deps.
Proof. solve_decision. Defined.

(** A subscription opened on the client. *)
Record Subscription := {
  variables_userID : string;
  closed : bool
}.

Record Controller := {
  world : World;
  subscriptions : list Subscription;  (* every subscription opened so far *)
  mounted : option (Deps * nat)       (* current deps, and the subscription
                                         held by the pending clean-up *)
}.

Definition with_world (w : World) (c : Controller) : Controller :=
  {| world := w; subscriptions := subscriptions c; mounted := mounted c |}.

Definition log_line (msg : string) (c : Controller) : Controller :=
  with_world (snd (console_log msg (world c))) c.

(** [setupSubscription()]: returns the new subscription. *)
Definition setupSubscription (d : Deps) (c : Controller) : nat * Controller :=
  let c := log_line "Setting up chat subscription" c in
  (length (subscriptions c),
   {| world := world c;
      subscriptions := subscriptions c ++
        [ {| variables_userID := default EmptyString (userID d);
             closed := false |} ];
      mounted := mounted c |}).

Definition unsubscribe (s : Subscription) : Subscription :=
  {| variables_userID := variables_userID s; closed := true |}.

(** The clean-up returned by the effect. *)
Definition cleanup (sub : nat) (c : Controller) : Controller :=
  let c := log_line "Cleaning up chat subscription" c in
  {| world := world c;
     subscriptions := alter unsubscribe sub (subscriptions c);
     mounted := mounted c |}.

(** The effect body. *)
Definition effect (d : Deps) (c : Controller) : Controller :=
  let '(sub, c') := setupSubscription d c in
  {| world := world c'; subscriptions := subscriptions c';
     mounted := Some (d, sub) |}.

Inductive Lifecycle :=
  | Mount (d : Deps)
  | Render (d : Deps)
  | Unmount
  | Push (sub : nat) (d : option Chat)   (* the source emits on [sub] *)
  | Tick (dt : nat).

Section Controller.

Variable JSON_parse : string → option json.

(** React's protocol for an effect with dependencies, and the
    observable's: a closed subscription no longer reaches [next]. *)
Definition lifecycle (e : Lifecycle) (c : Controller) : Controller :=
  match e, mounted c with
  | Mount d, None => effect d c
  | Render d, Some (d0, sub) =>
      if decide (d = d0) then c else effect d (cleanup sub c)
  | Unmount, Some (_, sub) =>
      let c' := cleanup sub c in
      {| world := world c'; subscriptions := subscriptions c';
         mounted := None |}
  | Push i d, _ =>
      match subscriptions c !! i with
      | Some s =>
          if closed s then c
          else with_world (snd (next JSON_parse d (world c))) c
      | None => c
      end
  | Tick dt, _ => with_world (snd (advance dt (world c))) c
  | _, _ => c
  end.

Definition lifecycle_run (es : list Lifecycle) (c : Controller)
  : Controller :=
  fold_left (λ c e, lifecycle e c) es c.

End Controller.

Definition initialController (w : World) : Controller :=
  {| world := w; subscriptions := []; mounted := None |}.

(** The subscriptions that still deliver. *)
Definition open_subscriptions (c : Controller) : list nat :=
  filter (λ i, (closed <$> subscriptions c !! i) = Some false)
         (seq 0 (length (subscriptions c))).

(** *** Displayed turns *)

Record GroupedMessage := {
  gm_id : string;
  gm_human : option string;
  gm_bot : option string;
  gm_payload : option string;
  gm_timestamp : string
}.

Definition grouped (chat : Chat) : GroupedMessage :=
  {| gm_id := chat_id chat; gm_human := human chat; gm_bot := bot chat;
     gm_payload := payload chat; gm_timestamp := createdAt chat |}.

(** [chats?.reduce(...)] on a list that has been fetched. *)
Definition groupedMessages (chats : list Chat) : list GroupedMessage :=
  fold_left
    (λ acc chat, if truthy_str (human chat) then acc ++ [grouped chat] else acc)
    chats [].



(** Modelled from the spec: a turn has a human utterance when its human
    text is present and not empty. *)
Definition has_human_utterance (c : Chat) : Prop :=
  ∃ t, human c = Some t ∧ t ≠ EmptyString.

#[export] Instance has_human_utterance_dec c :
  Decision (has_human_utterance c).
Proof.
  unfold has_human_utterance. destruct (human c) as [[|a t]|].
  - right. by intros (? & [= <-] & ?).
  - left. by eexists.
  - right. by intros (? & ? & _).
Defined.


(** *** Document previews *)

Inductive FileType := pdf | image | unknown.

(** Lower-casing of one byte.  A byte outside [A-Z] stays: no character
    beyond ASCII lower-cases to a string made of the letters compared
    below. *)
Definition lower (c : ascii) : ascii :=
  let n := nat_of_ascii c in
  if Nat.leb 65 n && Nat.leb n 90 then ascii_of_nat (n + 32) else c.

Fixpoint toLowerCase (s : string) : string :=
  match s with
  | EmptyString => EmptyString
  | String c r => String (lower c) (toLowerCase r)
  end.

(** [s.split('.')]: never empty. *)
Fixpoint split_dot (s : string) : list string :=
  match s with
  | EmptyString => [ EmptyString ]
  | String c r =>
      if Ascii.eqb c "." then EmptyString :: split_dot r
      else match split_dot r with
           | h :: t => String c h :: t
           | [] => [ String c EmptyString ]
           end
  end.

(** [.pop()] *)
Definition pop (l : list string) : option string := last l.

Definition getFileType (fileName : string) : FileType :=
  let extension := pop (split_dot (toLowerCase fileName)) in
  if bool_decide (extension = Some "pdf") then pdf
  else if bool_decide (default EmptyString extension
                       ∈ ["png"; "jpg"; "jpeg"; "gif"])
  then image
  else unknown.

Record DocumentType := {
  doc_id : string;
  doc_title : string;
  imageUrl : string
}.

(** What a click handler does. *)
Inductive Action :=
  | WindowOpen (url target : string).

(** The elements [renderDocumentPreview] builds. *)
Inductive Element :=
  | Box (key : option string) (children : list Element)
  | Icon (name : option string) (size : string) (variant : option string)
  | Anchor (href target rel : string) (children : list Element)
  | Img (src alt : string) (onClick : Action)
  | Span (children : list Element)
  | Text (s : string).

Definition renderDocumentPreview (doc : DocumentType) : Element :=
  let fileType := getFileType (doc_id doc) in
  match fileType with
  | pdf =>
      Box (Some (doc_id doc))
        [ Icon None "normal" (Some "error");
          Box None
            [ Anchor (imageUrl doc) "_blank" "noopener noreferrer"
                [ Text (doc_title doc); Icon (Some "external") "small" None ] ] ]
  | _ =>
      Box (Some (doc_id doc))
        [ Img (imageUrl doc) (doc_title doc)
              (WindowOpen (imageUrl doc) "_blank");
          Span [ Text (doc_title doc) ] ]
  end.

Fixpoint has_img (e : Element) : bool :=
  match e with
  | Box _ cs | Anchor _ _ _ cs | Span cs => existsb has_img cs
  | Img _ _ _ => true
  | Icon _ _ _ | Text _ => false
  end.

Fixpoint has_anchor (e : Element) : bool :=
  match e with
  | Box _ cs | Span cs => existsb has_anchor cs
  | Anchor _ _ _ _ => true
  | Img _ _ _ | Icon _ _ _ | Text _ => false
  end.

(** A plain label: text only, nothing to follow or to click. *)
Definition plain_label (e : Element) : bool :=
  negb (has_img e) && negb (has_anchor e).

(** ** Invariants and observations *)

Definition nodeIds : list string := map node_id createInitialLoanNodes.
Definition edgeIds : list string := map edge_id createInitialLoanEdges.

Definition isValidNodeType (i : string) : bool :=
  bool_decide (i ∈ ["supervisor"; "loanApplicant"; "broker"; "user"; "response"]).

#[export] Instance Edge_eq_dec : EqDecision Edge.
Proof. solve_decision. Defined.

Definition endpoints (e : Edge) : string * string * string :=
  (edge_id e, source e, target e).

Definition is_count (c : option count) : Prop :=
  match c with
  | Some (Count _) => True
  | _ => False
  end.

#[export] Instance is_count_dec c : Decision (is_count c).
Proof. destruct c as [[n|]|]; simpl; apply _. Defined.

(** The shape every panel has between two handlers: the fixed nodes and
    edges, the edges derived from the statistics, one details record per
    node and one numeric statistics record per edge. *)
Definition wf (p : Panel) : Prop :=
  map node_id (nodes p) = nodeIds
  ∧ map endpoints (edges p) = map endpoints createInitialLoanEdges
  ∧ edges p = map (syncEdge (edgeStats p)) (edges p)
  ∧ dom (nodeDetailsMap p) = list_to_set nodeIds
  ∧ dom (edgeStats p) = list_to_set edgeIds
  ∧ Forall (λ e, is_count ((edgeStats p !! e) ≫= callCount)) edgeIds.

#[export] Instance wf_dec p : Decision (wf p).
Proof. unfold wf. apply _. Defined.

Definition node_traces (p : Panel) (nodeId : string) : list NodeTrace :=
  default [] ((nodeDetailsMap p !! nodeId) ≫= traces).

Definition stats_animated (p : Panel) (edgeId : string) : option bool :=
  (edgeStats p !! edgeId) ≫= isAnimated.

Definition stats_calls (p : Panel) (edgeId : string) : option count :=
  (edgeStats p !! edgeId) ≫= callCount.

(** The [animated] flags of the displayed edges carrying [edgeId]. *)
Definition shown_animated (p : Panel) (edgeId : string) : list bool :=
  animated <$> filter (λ e, edge_id e = edgeId) (edges p).

Definition shown_label (p : Panel) (edgeId : string) : list (option string) :=
  edge_label <$> filter (λ e, edge_id e = edgeId) (edges p).

Definition node_data (p : Panel) (nodeId : string) : list CustomNodeData :=
  data <$> filter (λ n, node_id n = nodeId) (nodes p).

(** Everything the panel holds about a node and its inbound edge. *)
Definition node_view (p : Panel) (nodeId : string) :=
  (node_data p nodeId, nodeDetailsMap p !! nodeId,
   edgeStats p !! ("e-supervisor-" +:+ nodeId),
   filter (λ e, target e = nodeId) (edges p)).

(** The calls of the imperative handle. *)
Inductive ApiCall :=
  | CallUpdateEdgeAnimation (edgeId : string) (flag : bool)
  | CallIncrementEdgeCount (edgeId : string)
  | CallUpdateNodeState (nodeId : string) (s : NodeFlags)
  | CallAddNodeTrace (nodeId : string) (trace : NodeTrace).

Definition invoke (c : ApiCall) : Panel → Result Panel :=
  match c with
  | CallUpdateEdgeAnimation e b => updateEdgeAnimation e b
  | CallIncrementEdgeCount e => incrementEdgeCount e
  | CallUpdateNodeState n s => updateNodeState n s
  | CallAddNodeTrace n t => addNodeTrace n t
  end.

Definition unknown_identifier (c : ApiCall) : Prop :=
  match c with
  | CallUpdateEdgeAnimation e _ | CallIncrementEdgeCount e => e ∉ edgeIds
  | CallUpdateNodeState n _ | CallAddNodeTrace n _ => n ∉ nodeIds
  end.

(** The pending timers only ever clear one of the fixed edges. *)
Definition timer_ok (t : Timer) : Prop :=
  match callback t with
  | ClearEdgeAnimation e => e ∈ edgeIds
  end.

#[export] Instance timer_ok_dec t : Decision (timer_ok t).
Proof. unfold timer_ok. destruct (callback t). apply _. Defined.

Definition good (w : World) : Prop :=
  from_option wf True (agentFlowRef w) ∧ Forall timer_ok (timers w).

#[export] Instance good_dec w : Decision (good w).
Proof. unfold good. destruct (agentFlowRef w); simpl; apply _. Defined.

(** What a handler can tell about the world apart from its logs and
    counters. *)
Definition view (w : World) : option Panel * list Timer * nat :=
  (agentFlowRef w, timers w, clock w).

(** [wp m Q w]: run from [w], [m] returns normally and [Q] holds of its
    result and final world. *)
Definition wp {A} (m : M A) (Q : A → World → Prop) (w : World) : Prop :=
  match m w with
  | (Ok a, w') => Q a w'
  | (Throw _, _) => False
  end.

(** Sample payloads.  [dq] is the double quote. *)
Definition dq : string := String (ascii_of_nat 34) EmptyString.

Definition quoted (s : string) : string := dq +:+ s +:+ dq.

(** [{"trace":{"content":{"action":"modelInvocationInput","text":"hello"}}}] *)
Definition payload_first_hop : string :=
  "{" +:+ quoted "trace" +:+ ":{" +:+ quoted "content" +:+ ":{"
  +:+ quoted "action" +:+ ":" +:+ quoted "modelInvocationInput" +:+ ","
  +:+ quoted "text" +:+ ":" +:+ quoted "hello" +:+ "}}}".

Definition trace_first_hop : json :=
  JObj [("content", JObj [("action", JStr "modelInvocationInput");
                          ("text", JStr "hello")])].

(** A stand-in for [JSON.parse] in the examples.  It agrees with
    [JSON.parse] on the three payloads it knows and on text that is not
    JSON; it is used with no other text. *)
Definition sample_parse (s : string) : option json :=
  if String.eqb s "{}" then Some (JObj [])
  else if String.eqb s "null" then Some JNull
  else if String.eqb s payload_first_hop
  then Some (JObj [("trace", trace_first_hop)])
  else None.

(** The other collaborator node. *)
Definition otherCollaborator (nodeId : string) : string :=
  if String.eqb nodeId "loanApplicant" then "broker" else "loanApplicant".

Definition respects {A} (m : M A) : Prop :=
  ∀ w1 w2, view w1 = view w2 →
    fst (m w1) = fst (m w2) ∧ view (snd (m w1)) = view (snd (m w2)).

Definition is_open (c : Controller) (i : nat) : Prop :=
  closed <$> subscriptions c !! i = Some false.

(** While mounted, the one subscription that delivers is the one the
    pending clean-up holds, and it was opened for the current user; once
    unmounted none delivers. *)
Definition tidy (c : Controller) : Prop :=
  (∀ i, is_open c i ↔ ∃ d, mounted c = Some (d, i))
  ∧ ∀ d i, mounted c = Some (d, i) →
      subscriptions c !! i
      = Some {| variables_userID := default EmptyString (userID d);
                closed := false |}.

(** ** Sample inputs *)

Definition trace_loan_output : json :=
  JObj [("content", JObj [("action", JStr "modelInvocationOutput");
                          ("collaboratorName", JStr loan_agent);
                          ("text", JStr "documents verified")])].

Definition trace_input_with_collaborator : json :=
  JObj [("content", JObj [("action", JStr "modelInvocationInput");
                          ("collaboratorName", JStr "broker_agent");
                          ("text", JStr "routing")])].

Definition sample_trace : NodeTrace :=
  {| timestamp := 0; text := JStr "note" |}.

Definition approved_without_payload : Chat :=
  {| chat_id := "chat-1"; human := Some "Am I approved?";
     bot := Some "Approved"; payload := None;
     createdAt := "2024-05-01T10:00:00.000Z" |}.

Definition approved_with_payload : Chat :=
  {| chat_id := "chat-1"; human := Some "Am I approved?";
     bot := Some "Approved"; payload := Some "{}";
     createdAt := "2024-05-01T10:00:00.000Z" |}.

Definition malformed_event : Chat :=
  {| chat_id := "chat-2"; human := None; bot := Some "Approved";
     payload := Some "{not json";
     createdAt := "2024-05-01T10:00:01.000Z" |}.

Definition first_hop_event : Chat :=
  {| chat_id := "chat-3"; human := Some "I need a loan"; bot := None;
     payload := Some payload_first_hop;
     createdAt := "2024-05-01T10:00:02.000Z" |}.


Definition turn_two : Chat :=
  {| chat_id := "chat-2"; human := Some "Thanks"; bot := None;
     payload := None; createdAt := "2024-05-01T10:05:00.000Z" |}.

Definition notes_doc : DocumentType :=
  {| doc_id := "notes.txt"; doc_title := "Notes";
     imageUrl := "https://files.example/notes.txt" |}.

Definition scan_doc : DocumentType :=
  {| doc_id := "payslip.PNG"; doc_title := "Payslip";
     imageUrl := "https://files.example/payslip.PNG" |}.

Definition alice : Deps := {| userID := Some "alice"; callbacks := 0 |}.

Definition bob : Deps := {| userID := Some "bob"; callbacks := 0 |}.

Definition sample_history : list Lifecycle :=
  [Mount alice; Push 0 (Some first_hop_event); Render bob].

(** ** Further parts of the components *)

(** *** How a panel may change *)

(** The descriptive text held for a node. *)
Definition node_static (p : Panel) (nodeId : string)
  : option string * option string * option string :=
  ((nodeDetailsMap p !! nodeId) ≫= title,
   (nodeDetailsMap p !! nodeId) ≫= description,
   (nodeDetailsMap p !! nodeId) ≫= details).

(** [p'] comes after [p]: same nodes, same descriptive text, every trace
    list extended at its end, no numeric call count lowered. *)
Definition evolves (p p' : Panel) : Prop :=
  nodes p' = nodes p
  ∧ (∀ n, node_static p' n = node_static p n)
  ∧ (∀ n, node_traces p n `prefix_of` node_traces p' n)
  ∧ (∀ e k, stats_calls p e = Some (Count k) →
            ∃ k', stats_calls p' e = Some (Count k') ∧ (k ≤ k')%N).

Definition ref_evolves (r r' : option Panel) : Prop :=
  match r, r' with
  | Some p, Some p' => evolves p p'
  | None, None => True
  | _, _ => False
  end.

Definition keeps {A} (m : M A) : Prop :=
  ∀ w, ref_evolves (agentFlowRef w) (agentFlowRef (snd (m w))).

(** Every pending timer is due after now and at most 2000 ms from now. *)
Definition timely (w : World) : Prop :=
  Forall (λ t, clock w < due t ∧ due t ≤ clock w + 2000) (timers w).

#[export] Instance timely_dec w : Decision (timely w).
Proof. unfold timely. apply _. Defined.

Definition punctual {A} (m : M A) : Prop :=
  ∀ w, timely w → timely (snd (m w)) ∧ clock (snd (m w)) = clock w.

(** [updateNodeState] twice: the flags of the second call over those of
    the first. *)
Definition flags_then (s1 s2 : NodeFlags) : NodeFlags :=
  {| set_isProcessing :=
       match set_isProcessing s2 with
       | Some b => Some b
       | None => set_isProcessing s1
       end;
     set_processingComplete :=
       match set_processingComplete s2 with
       | Some b => Some b
       | None => set_processingComplete s1
       end |}.

(** *** CustomAgentNode *)

(** The [className] of the node's element. *)
Definition className (d : CustomNodeData) : string :=
  "custom-agent-node "
  +:+ (if default false (isProcessing d) then "processing" else EmptyString)
  +:+ " "
  +:+ (if default false (processingComplete d) then "complete"
       else EmptyString).

(** *** The details modal of the panel *)

Record Modal := {
  selectedNode : option string;
  isModalVisible : bool
}.

Definition initialModal : Modal :=
  {| selectedNode := None; isModalVisible := false |}.

Definition onNodeClick (nodeId : string) (m : Modal) : Modal :=
  if isValidNodeType nodeId
  then {| selectedNode := Some nodeId; isModalVisible := true |}
  else m.

Definition onDismiss (m : Modal) : Modal :=
  {| selectedNode := selectedNode m; isModalVisible := false |}.

(** The modal's [header]; [None] is [undefined]. *)
Definition modalHeader (p : Panel) (m : Modal) : option string :=
  match selectedNode m with
  | Some n =>
      if truthy_str (Some n)
      then obj_get bareDetails (nodeDetailsMap p) n ≫= title
      else Some "Agent Details"
  | None => Some "Agent Details"
  end.

Inductive ModalAction :=
  | Click (nodeId : string)
  | Dismiss.

Definition modal_step (m : Modal) (a : ModalAction) : Modal :=
  match a with
  | Click n => onNodeClick n m
  | Dismiss => onDismiss m
  end.

(** *** The "AI is responding" effect and the reply bubbles *)

(** What the effect asks of the scroll collaborator:
    [onNewMessage?.()] at once, or after a delay. *)
Inductive Signal :=
  | SignalNow
  | SignalAfter (delay : nat).

(** The effect on [chats]: the new [isAIResponding] and the signals. *)
Definition respondingEffect (chats : option (list Chat))
    (isAIResponding : bool) : bool * list Signal :=
  match chats ≫= last with
  | Some lastChat =>
      if truthy_str (human lastChat) && negb (truthy_str (bot lastChat))
      then (true, [SignalAfter 100])
      else if truthy_str (bot lastChat)
      then (false, [SignalNow])
      else (isAIResponding, [])
  | None => (isAIResponding, [])
  end.

Definition nl : ascii := ascii_of_nat 10.

(** [s.split(c)] for a one-character separator: never empty. *)
Fixpoint split_char (sep : ascii) (s : string) : list string :=
  match s with
  | EmptyString => [ EmptyString ]
  | String c r =>
      if Ascii.eqb c sep then EmptyString :: split_char sep r
      else match split_char sep r with
           | h :: t => String c h :: t
           | [] => [ String c EmptyString ]
           end
  end.

(** [s.split('\n\n')]: cut at each blank line, leftmost first. *)
Fixpoint split_blank (s : string) : list string :=
  match s with
  | EmptyString => [ EmptyString ]
  | String c r =>
      match r with
      | String c' r' =>
          if Ascii.eqb c nl && Ascii.eqb c' nl
          then EmptyString :: split_blank r'
          else match split_blank r with
               | h :: t => String c h :: t
               | [] => [ String c EmptyString ]
               end
      | EmptyString => [ String c EmptyString ]
      end
  end.

(** One line of a paragraph, and whether a [<br />] follows it. *)
Definition lines_of (paragraph : string) : list (string * bool) :=
  let lines := split_char nl paragraph in
  imap (λ lineIndex line,
          (line, bool_decide (S lineIndex < length lines)))
       lines.

Definition paragraphs_of (reply : string) : list (list (string * bool)) :=
  map lines_of (split_blank reply).

Inductive BubbleContent :=
  | Generating
  | Paragraphs (ps : option (list (list (string * bool)))).

(** The reply bubble of the turn at [index], if one is rendered. *)
Definition aiBubble (isAIResponding : bool) (count index : nat)
    (chat : GroupedMessage) : option BubbleContent :=
  if truthy_str (gm_bot chat)
     || (isAIResponding && bool_decide (S index = count))
  then Some (if isAIResponding && negb (truthy_str (gm_bot chat))
             then Generating
             else Paragraphs (paragraphs_of <$> gm_bot chat))
  else None.

Definition aiBubbles (isAIResponding : bool) (chats : list Chat)
  : list (option BubbleContent) :=
  let groupedMessages := groupedMessages chats in
  imap (aiBubble isAIResponding (length groupedMessages)) groupedMessages.

(** Text back from what is displayed: a line break for each [<br />], a
    blank line between paragraphs. *)
Fixpoint text_of_lines (ls : list (string * bool)) : string :=
  match ls with
  | [] => EmptyString
  | (line, br) :: ls' =>
      line +:+ (if br then String nl (text_of_lines ls') else text_of_lines ls')
  end.

Fixpoint join (sep : string) (l : list string) : string :=
  match l with
  | [] => EmptyString
  | [x] => x
  | x :: l' => x +:+ sep +:+ join sep l'
  end.

Definition blank : string := String nl (String nl EmptyString).

Definition text_of_paragraphs (ps : list (list (string * bool))) : string :=
  join blank (map text_of_lines ps).

(** *** Helpers for stating properties of file names and lines *)

Fixpoint dot_free (s : string) : bool :=
  match s with
  | EmptyString => true
  | String c r => negb (Ascii.eqb c ".") && dot_free r
  end.

Fixpoint char_free (sep : ascii) (s : string) : bool :=
  match s with
  | EmptyString => true
  | String c r => negb (Ascii.eqb c sep) && char_free sep r
  end.

(** Every line but the last is followed by a break. *)
Fixpoint flagged (l : list string) : list (string * bool) :=
  match l with
  | [] => []
  | [x] => [(x, false)]
  | x :: l' => (x, true) :: flagged l'
  end.

(** *** Calls on one edge *)

(** The two handle calls that address an edge. *)
Inductive EdgeCall :=
  | SetAnimated (flag : bool)
  | CountCall.

#[export] Instance EdgeCall_eq_dec : EqDecision EdgeCall.
Proof. solve_decision. Defined.

Definition edge_call (edgeId : string) (c : EdgeCall) : ApiCall :=
  match c with
  | SetAnimated flag => CallUpdateEdgeAnimation edgeId flag
  | CountCall => CallIncrementEdgeCount edgeId
  end.

(** Handle calls made one after the other, each on the panel the one
    before it left. *)
Fixpoint invoke_all (cs : list ApiCall) (p : Panel) : Result Panel :=
  match cs with
  | [] => Ok p
  | c :: cs' =>
      match invoke c p with
      | Ok p' => invoke_all cs' p'
      | Throw e => Throw e
      end
  end.

(** The flag an edge is left with: the last one set, [b] if none was. *)
Fixpoint last_flag (b : bool) (cs : list EdgeCall) : bool :=
  match cs with
  | [] => b
  | SetAnimated flag :: cs' => last_flag flag cs'
  | CountCall :: cs' => last_flag b cs'
  end.

(** *** Counting signals *)

(** A handler part that neither refetches nor signals a new message. *)
Definition silent {A} (m : M A) : Prop :=
  ∀ w, refetches (snd (m w)) = refetches w
       ∧ newMessages (snd (m w)) = newMessages w.

(** *** More sample inputs *)

Definition sample_steps : list Step :=
  [ Deliver (Some first_hop_event); Advance 500;
    Deliver (Some approved_with_payload); Advance 2000 ].

Definition world_mid_animation : World :=
  run sample_parse [Deliver (Some first_hop_event); Advance 1500] initialWorld.

Definition alice_again : Deps := {| userID := Some "alice"; callbacks := 1 |}.

Definition null_payload_event : Chat :=
  {| chat_id := "chat-4"; human := None; bot := Some "Approved";
     payload := Some "null"; createdAt := "2024-05-01T10:00:03.000Z" |}.

Definition trace_supervisor_output : json :=
  JObj [("content", JObj [("action", JStr "modelInvocationOutput");
                          ("text", JStr "summary")])].

Definition trace_other_action : json :=
  JObj [("content", JObj [("action", JStr "preProcessingTrace");
                          ("collaboratorName", JStr loan_agent);
                          ("text", JStr "ignored")])].

(** * Properties *)

(** ** Proof tools *)

Ltac in_list :=
  unfold edgeIds, nodeIds; simpl;
  repeat first [apply list_elem_of_here | apply list_elem_of_further].

Ltac by_compute := apply (bool_decide_unpack _); vm_compute; exact I.

(** ** The imperative handle on a well-formed panel *)

Lemma obj_get_own {V} (bare : V) (o : gmap string V) k v :
  o !! k = Some v → obj_get bare o k = Some v.
Proof. intros H. unfold obj_get. by rewrite H. Qed.

Lemma obj_get_fresh {V} (bare : V) (o : gmap string V) k :
  o !! k = None → default bare (obj_get bare o k) = bare.
Proof. intros H. unfold obj_get. rewrite H. by case_bool_decide. Qed.

Lemma is_str_true v s : is_str v s = true ↔ v = Some (JStr s).
Proof.
  destruct v as [[| | |t| |]|]; simpl; try (split; [discriminate|intros [=]]).
  rewrite String.eqb_eq. split; [by intros ->|by intros [= ->]].
Qed.

Lemma syncEdge_idemp s e : syncEdge s (syncEdge s e) = syncEdge s e.
Proof. reflexivity. Qed.

Lemma endpoints_syncEdge s e : endpoints (syncEdge s e) = endpoints e.
Proof. reflexivity. Qed.

Lemma map_endpoints_sync s es :
  map endpoints (map (syncEdge s) es) = map endpoints es.
Proof. rewrite map_map. by apply map_ext. Qed.

Lemma endpoints_edge_ids es es' :
  map endpoints es = map endpoints es' → map edge_id es = map edge_id es'.
Proof.
  intros H. apply (f_equal (map (λ x, fst (fst x)))) in H.
  by rewrite !map_map in H.
Qed.

Lemma wf_edge_ids p : wf p → map edge_id (edges p) = edgeIds.
Proof. intros (_ & H & _). by apply endpoints_edge_ids in H. Qed.

Lemma wf_stats_lookup p e :
  wf p → e ∈ edgeIds →
  ∃ s n, edgeStats p !! e = Some s ∧ callCount s = Some (Count n).
Proof.
  intros (_ & _ & _ & _ & _ & Hc) He.
  rewrite Forall_forall in Hc. specialize (Hc e He).
  destruct (edgeStats p !! e) as [s|] eqn:E; simpl in Hc; [|done].
  destruct (callCount s) as [[n|]|] eqn:C; try done. by exists s, n.
Qed.

Lemma wf_details_lookup p n :
  wf p → n ∈ nodeIds → is_Some (nodeDetailsMap p !! n).
Proof.
  intros (_ & _ & _ & Hd & _) Hn.
  apply elem_of_dom. rewrite Hd. by apply elem_of_list_to_set.
Qed.

(** The statistics may change under a well-formed panel as long as the
    keys stay and the counts stay numbers. *)
Lemma wf_stats_update p stats :
  wf p →
  dom stats = dom (edgeStats p) →
  Forall (λ e, is_count ((stats !! e) ≫= callCount)) edgeIds →
  wf (syncEdges {| nodes := nodes p; edges := edges p;
                   nodeDetailsMap := nodeDetailsMap p; edgeStats := stats |}).
Proof.
  intros (Hn & He & Hs & Hd & Hk & Hc) Hdom Hcnt.
  repeat split; simpl; try done.
  - by rewrite map_endpoints_sync.
  - rewrite map_map. by apply map_ext.
  - by rewrite Hdom.
Qed.

Lemma updateEdgeAnimation_known p e b :
  wf p → e ∈ edgeIds →
  ∃ s p', edgeStats p !! e = Some s
    ∧ updateEdgeAnimation e b p = Ok p'
    ∧ wf p'
    ∧ nodes p' = nodes p
    ∧ nodeDetailsMap p' = nodeDetailsMap p
    ∧ edgeStats p' =
        <[e := {| callCount := callCount s; isAnimated := Some b |}]>
          (edgeStats p).
Proof.
  intros Hwf He.
  destruct (wf_stats_lookup p e Hwf He) as (s & n & Hs & Hn).
  exists s. eexists. split; [done|].
  unfold updateEdgeAnimation, setEdgeStats.
  rewrite (obj_get_own _ _ _ _ Hs). simpl.
  split; [reflexivity|]. split; [|done].
  apply wf_stats_update; [done| |].
  - by rewrite dom_insert_lookup_L.
  - destruct Hwf as (_ & _ & _ & _ & _ & Hc).
    rewrite Forall_forall in Hc |- *. intros x Hx.
    destruct (decide (x = e)) as [->|Hne].
    + rewrite lookup_insert_eq. simpl. by rewrite Hn.
    + rewrite lookup_insert_ne; [by apply Hc|done].
Qed.

Lemma incrementEdgeCount_known p e :
  wf p → e ∈ edgeIds →
  ∃ s n p', edgeStats p !! e = Some s
    ∧ callCount s = Some (Count n)
    ∧ incrementEdgeCount e p = Ok p'
    ∧ wf p'
    ∧ nodes p' = nodes p
    ∧ nodeDetailsMap p' = nodeDetailsMap p
    ∧ edgeStats p' =
        <[e := {| callCount := Some (Count (n + 1));
                  isAnimated := isAnimated s |}]> (edgeStats p).
Proof.
  intros Hwf He.
  destruct (wf_stats_lookup p e Hwf He) as (s & n & Hs & Hn).
  exists s, n. eexists. do 2 (split; [done|]).
  unfold incrementEdgeCount, setEdgeStats.
  rewrite (obj_get_own _ _ _ _ Hs). simpl. rewrite Hn. simpl.
  split; [reflexivity|]. split; [|done].
  apply wf_stats_update; [done| |].
  - by rewrite dom_insert_lookup_L.
  - destruct Hwf as (_ & _ & _ & _ & _ & Hc).
    rewrite Forall_forall in Hc |- *. intros x Hx.
    destruct (decide (x = e)) as [->|Hne].
    + by rewrite lookup_insert_eq.
    + rewrite lookup_insert_ne; [by apply Hc|done].
Qed.

Lemma addNodeTrace_known p n t :
  wf p → n ∈ nodeIds →
  ∃ p', addNodeTrace n t p = Ok p'
    ∧ wf p'
    ∧ nodes p' = nodes p
    ∧ edges p' = edges p
    ∧ edgeStats p' = edgeStats p
    ∧ node_traces p' n = node_traces p n ++ [t]
    ∧ ∀ m, m ≠ n → nodeDetailsMap p' !! m = nodeDetailsMap p !! m.
Proof.
  intros Hwf Hn.
  destruct (wf_details_lookup p n Hwf Hn) as [old Hold].
  eexists. unfold addNodeTrace, setNodeDetailsMap.
  rewrite (obj_get_own _ _ _ _ Hold). split; [reflexivity|].
  destruct Hwf as (H1 & H2 & H3 & H4 & H5 & H6).
  repeat split; simpl; try done.
  - by rewrite dom_insert_lookup_L.
  - unfold node_traces. simpl. rewrite lookup_insert_eq, Hold. done.
  - intros m Hm. by rewrite lookup_insert_ne.
Qed.

(** ** Reasoning about handlers *)

Lemma wp_returns {A} (m : M A) Q w :
  wp m Q w → ∃ a w', m w = (Ok a, w') ∧ Q a w'.
Proof. unfold wp. destruct (m w) as [[a|e] w']; [eauto|done]. Qed.

Lemma wp_mono {A} (m : M A) (Q Q' : A → World → Prop) w :
  wp m Q w → (∀ a w', Q a w' → Q' a w') → wp m Q' w.
Proof. unfold wp. destruct (m w) as [[a|e] w']; [eauto|done]. Qed.

Lemma wp_ret {A} (a : A) Q w : Q a w → wp (mret a) Q w.
Proof. done. Qed.

Lemma wp_bind {A B} (m : M A) (f : A → M B) Q w :
  wp m (λ a, wp (f a) Q) w → wp (m ≫= f) Q w.
Proof.
  unfold wp, mbind, M_bind. destruct (m w) as [[a|e] w']; [done|done].
Qed.

Lemma wp_console_log msg Q w :
  Q () (with_console (console w ++ [Log msg]) w) → wp (console_log msg) Q w.
Proof. done. Qed.

Lemma wp_now Q w : Q (clock w) w → wp now Q w.
Proof. done. Qed.

Lemma wp_setTimeout cb delay Q w :
  Q () (with_timers
          (enqueue {| due := clock w + delay; callback := cb |} (timers w)) w) →
  wp (setTimeout cb delay) Q w.
Proof. done. Qed.

Lemma wp_agentFlow call p p' Q w :
  agentFlowRef w = Some p → call p = Ok p' →
  Q () (with_ref (Some p') w) → wp (agentFlow call) Q w.
Proof. intros Hr Hc HQ. unfold wp, agentFlow. by rewrite Hr, Hc. Qed.

Lemma wp_agentFlow_detached call Q w :
  agentFlowRef w = None → Q () w → wp (agentFlow call) Q w.
Proof. intros Hr HQ. unfold wp, agentFlow. by rewrite Hr. Qed.

Lemma wp_when (b : bool) m Q w :
  (if b then wp m Q w else Q () w) → wp (when b m) Q w.
Proof. by destruct b. Qed.

Lemma elem_of_enqueue t q : t ∈ enqueue t q.
Proof.
  induction q as [|t' q IH]; simpl; [by apply list_elem_of_singleton|].
  destruct (Nat.leb (due t') (due t)); [by right|by left].
Qed.

Lemma enqueue_keeps t t' q : t' ∈ q → t' ∈ enqueue t q.
Proof.
  induction q as [|x q IH]; simpl; [by intros ?%elem_of_nil|].
  intros [->|H]%elem_of_cons; destruct (Nat.leb (due x) (due t)).
  - by left.
  - right. by left.
  - right. auto.
  - by do 2 right.
Qed.

Lemma enqueue_elem_of t x q : x ∈ enqueue t q → x = t ∨ x ∈ q.
Proof.
  induction q as [|y q IH]; simpl.
  - intros ->%list_elem_of_singleton. by left.
  - destruct (Nat.leb (due y) (due t)).
    + intros [->|H]%elem_of_cons; [right; by left|].
      destruct (IH H) as [->|?]; [by left|right; by right].
    + intros [->|H]%elem_of_cons; [by left|by right].
Qed.

Lemma Forall_enqueue (P : Timer → Prop) t q :
  P t → Forall P q → Forall P (enqueue t q).
Proof.
  rewrite !Forall_forall. intros Ht Hq x Hx.
  destruct (enqueue_elem_of _ _ _ Hx) as [->|?]; auto.
Qed.

(** ** Displayed edges of a well-formed panel *)

Lemma wf_shown p e :
  wf p → e ∈ edgeIds →
  shown_animated p e = [default false (stats_animated p e)]
  ∧ shown_label p e = [Some (calls_label (stats_calls p e))].
Proof.
  intros Hwf He.
  assert (Hlk : ∀ x, x ∈ edgeIds → obj_get bareStats (edgeStats p) x
                                   = edgeStats p !! x).
  { intros x Hx. destruct (wf_stats_lookup p x Hwf Hx) as (s & n & Hs & _).
    by rewrite (obj_get_own _ _ _ _ Hs). }
  destruct Hwf as (_ & Hends & Hsync & _).
  unfold shown_animated, shown_label, stats_animated, stats_calls.
  destruct (edges p) as [|[i1 s1 t1 a1 l1 c1] [|[i2 s2 t2 a2 l2 c2]
    [|[i3 s3 t3 a3 l3 c3] [|[i4 s4 t4 a4 l4 c4] [|? ?]]]]];
    try discriminate Hends.
  injection Hends as -> -> -> -> -> -> -> -> -> -> -> ->.
  injection Hsync as -> -> -> -> -> -> -> ->.
  unfold edgeIds in He. simpl in He.
  repeat (apply elem_of_cons in He as [->|He]);
    [| | | |by apply elem_of_nil in He];
    (rewrite !Hlk by in_list); done.
Qed.

(** ** Timers *)

Lemma updateEdgeAnimation_total e b p :
  ∃ p', updateEdgeAnimation e b p = Ok p'
    ∧ nodes p' = nodes p
    ∧ map endpoints (edges p') = map endpoints (edges p)
    ∧ nodeDetailsMap p' = nodeDetailsMap p
    ∧ stats_animated p' e = Some b
    ∧ ∀ x, x ≠ e → edgeStats p' !! x = edgeStats p !! x.
Proof.
  eexists. split; [reflexivity|]. simpl. repeat split.
  - by rewrite map_endpoints_sync.
  - unfold stats_animated. simpl. by rewrite lookup_insert_eq.
  - intros x Hx. by rewrite lookup_insert_ne.
Qed.

Lemma fire_all_attached ts : ∀ w p,
  agentFlowRef w = Some p →
  wp (fire_all ts) (λ _ w', ∃ p',
      agentFlowRef w' = Some p' ∧ timers w' = timers w ∧ clock w' = clock w
      ∧ (wf p → Forall timer_ok ts → wf p')
      ∧ ∀ e, stats_animated p e = Some false
             ∨ Exists (λ t, callback t = ClearEdgeAnimation e) ts →
             stats_animated p' e = Some false) w.
Proof.
  induction ts as [|t ts IH]; intros w p Hr.
  - apply wp_ret. exists p. do 4 (split; [done|]).
    intros e [H|H]; [done|by apply Exists_nil in H].
  - simpl. apply wp_bind. unfold fire. destruct (callback t) as [e0] eqn:Hcb.
    destruct (updateEdgeAnimation_total e0 false p)
      as (p1 & Hcall & _ & _ & _ & Hset & Hother).
    eapply wp_agentFlow; [done..|].
    eapply wp_mono; [apply (IH _ p1); done|].
    intros _ w' (p' & Hr' & Ht & Hc & Hwf & Hclr). exists p'.
    do 3 (split; [done|]). split.
    + intros Hwfp Hok. apply Forall_cons in Hok as [Hok0 Hok].
      unfold timer_ok in Hok0. rewrite Hcb in Hok0.
      destruct (updateEdgeAnimation_known p e0 false Hwfp Hok0)
        as (? & p1' & _ & Hcall' & Hwf1 & _).
      rewrite Hcall in Hcall'. injection Hcall' as <-. auto.
    + intros e He. apply Hclr.
      destruct (decide (e = e0)) as [->|Hne]; [by left|].
      destruct He as [He|He].
      * left. unfold stats_animated in *. by rewrite Hother.
      * apply Exists_cons in He as [He|He]; [congruence|by right].
Qed.

Lemma fire_all_detached ts : ∀ w,
  agentFlowRef w = None → fire_all ts w = (Ok (), w).
Proof.
  induction ts as [|t ts IH]; intros w Hr; [done|].
  simpl. unfold mbind, M_bind, fire, agentFlow.
  destruct (callback t). rewrite Hr. by apply IH.
Qed.

(** After [dt] ms a timer that was due by then has run: its edge is no
    longer animated. *)
Lemma advance_clears dt w p t e :
  agentFlowRef w = Some p →
  t ∈ timers w → callback t = ClearEdgeAnimation e → due t ≤ clock w + dt →
  wp (advance dt) (λ _ w', ∃ p',
      agentFlowRef w' = Some p' ∧ stats_animated p' e = Some false
      ∧ (good w → wf p' ∧ shown_animated p' e = [false])) w.
Proof.
  intros Hr Ht Hcb Hdue. unfold advance.
  eapply wp_mono; [eapply fire_all_attached; exact Hr|].
  intros _ w' (p' & Hr' & _ & _ & Hwf & Hclr). exists p'.
  assert (Hfalse : stats_animated p' e = Some false).
  { apply Hclr. right. apply Exists_exists. exists t. split; [|done].
    by apply list_elem_of_filter. }
  split; [done|]. split; [done|].
  intros [Hp Hts]. rewrite Hr in Hp. simpl in Hp.
  assert (Hwf' : wf p').
  { apply Hwf; [done|]. rewrite Forall_forall in Hts |- *.
    intros x [_ Hx]%list_elem_of_filter. auto. }
  split; [done|].
  assert (He : e ∈ edgeIds).
  { rewrite Forall_forall in Hts. specialize (Hts t Ht).
    unfold timer_ok in Hts. by rewrite Hcb in Hts. }
  destruct (wf_shown p' e Hwf' He) as [-> _]. by rewrite Hfalse.
Qed.

(** ** One call through the handle, as a step of a handler *)

Lemma with_ref_same w p : agentFlowRef w = Some p → with_ref (Some p) w = w.
Proof. destruct w. simpl. by intros ->. Qed.

Lemma wf_synced p : wf p → edges p = map (syncEdge (edgeStats p)) (edges p).
Proof. by intros (_ & _ & H & _). Qed.

Lemma step_trace (b : bool) n t w p (Q : unit → World → Prop) :
  agentFlowRef w = Some p → wf p → n ∈ nodeIds →
  (∀ p', wf p' → nodes p' = nodes p → edges p' = edges p →
         edgeStats p' = edgeStats p →
         node_traces p' n = node_traces p n ++ (if b then [t] else []) →
         (∀ m, m ≠ n → nodeDetailsMap p' !! m = nodeDetailsMap p !! m) →
         Q () (with_ref (Some p') w)) →
  wp (when b (agentFlow (addNodeTrace n t))) Q w.
Proof.
  intros Hr Hwf Hn HQ. apply wp_when. destruct b.
  - destruct (addNodeTrace_known p n t Hwf Hn)
      as (p' & Hcall & Hwf' & H1 & H2 & H3 & H4 & H5).
    eapply wp_agentFlow; [done..|]. by apply HQ.
  - rewrite <- (with_ref_same w p Hr). apply HQ; try done.
    by rewrite app_nil_r.
Qed.

Lemma step_animate e b w p (Q : unit → World → Prop) :
  agentFlowRef w = Some p → wf p → e ∈ edgeIds →
  (∀ s p', edgeStats p !! e = Some s → wf p' → nodes p' = nodes p →
           edges p' = map (syncEdge (edgeStats p')) (edges p) →
           nodeDetailsMap p' = nodeDetailsMap p →
           edgeStats p' =
             <[e := {| callCount := callCount s; isAnimated := Some b |}]>
               (edgeStats p) →
           Q () (with_ref (Some p') w)) →
  wp (agentFlow (updateEdgeAnimation e b)) Q w.
Proof.
  intros Hr Hwf He HQ.
  destruct (updateEdgeAnimation_known p e b Hwf He)
    as (s & p' & Hs & Hcall & Hwf' & H1 & H2 & H3).
  eapply wp_agentFlow; [done..|]. apply (HQ s); try done.
  unfold updateEdgeAnimation, setEdgeStats in Hcall. simpl in Hcall.
  injection Hcall as <-. done.
Qed.

Lemma step_increment e w p (Q : unit → World → Prop) :
  agentFlowRef w = Some p → wf p → e ∈ edgeIds →
  (∀ s n p', edgeStats p !! e = Some s → callCount s = Some (Count n) →
             wf p' → nodes p' = nodes p →
             edges p' = map (syncEdge (edgeStats p')) (edges p) →
             nodeDetailsMap p' = nodeDetailsMap p →
             edgeStats p' =
               <[e := {| callCount := Some (Count (n + 1));
                         isAnimated := isAnimated s |}]> (edgeStats p) →
             Q () (with_ref (Some p') w)) →
  wp (agentFlow (incrementEdgeCount e)) Q w.
Proof.
  intros Hr Hwf He HQ.
  destruct (incrementEdgeCount_known p e Hwf He)
    as (s & n & p' & Hs & Hn & Hcall & Hwf' & H1 & H2 & H3).
  eapply wp_agentFlow; [done..|]. apply (HQ s n); try done.
  unfold incrementEdgeCount, setEdgeStats in Hcall.
  rewrite (obj_get_own _ _ _ _ Hs) in Hcall. injection Hcall as <-. done.
Qed.

(** ** The final-response block *)

Lemma respond_spec chatData w p :
  agentFlowRef w = Some p → wf p →
  wp (respond chatData) (λ _ w', ∃ p',
      agentFlowRef w' = Some p' ∧ wf p' ∧ clock w' = clock w
      ∧ nodes p' = nodes p ∧ edges p' = edges p ∧ edgeStats p' = edgeStats p
      ∧ (∀ m, m ≠ "response" →
              nodeDetailsMap p' !! m = nodeDetailsMap p !! m)
      ∧ match chatData ≫= bot with
        | Some reply =>
            if truthy_str (Some reply) then
              node_traces p' "response" =
                node_traces p "response"
                ++ [ {| timestamp := clock w; text := JStr reply |} ]
              ∧ timers w' =
                  enqueue {| due := clock w + 2000;
                             callback :=
                               ClearEdgeAnimation "e-supervisor-response" |}
                          (timers w)
            else nodeDetailsMap p' = nodeDetailsMap p ∧ timers w' = timers w
        | None => nodeDetailsMap p' = nodeDetailsMap p ∧ timers w' = timers w
        end) w.
Proof.
  intros Hr Hwf. unfold respond.
  destruct (chatData ≫= bot) as [reply|].
  - apply wp_when. destruct (truthy_str (Some reply)) eqn:Hb.
    + apply wp_bind, wp_now, wp_bind.
      apply (step_trace true _ _ w p); [done|done|in_list|].
      intros p' Hwf' H1 H2 H3 H4 H5. apply wp_setTimeout.
      exists p'. simpl. by rewrite H4.
    + exists p. by simpl.
  - apply wp_ret. by exists p.
Qed.

Lemma good_attached w p : agentFlowRef w = Some p → good w → wf p.
Proof. intros Hr [H _]. by rewrite Hr in H. Qed.

Lemma good_timers w : good w → Forall timer_ok (timers w).
Proof. by intros [_ H]. Qed.

Lemma advance_returns dt w p t e :
  agentFlowRef w = Some p → good w →
  t ∈ timers w → callback t = ClearEdgeAnimation e → due t ≤ clock w + dt →
  ∃ w' p', advance dt w = (Ok (), w') ∧ agentFlowRef w' = Some p'
    ∧ stats_animated p' e = Some false ∧ shown_animated p' e = [false].
Proof.
  intros Hr Hg Ht Hcb Hdue.
  destruct (wp_returns _ _ _ (advance_clears dt w p t e Hr Ht Hcb Hdue))
    as ([] & w' & Hrun & p' & Hr' & Hclr & Hshown).
  exists w', p'. destruct (Hshown Hg) as [_ ?]. done.
Qed.

(** C3.  A trace with action "modelInvocationInput" and no collaborator
    name: the supervisor node gains exactly one trace entry if the text is
    truthy and none otherwise; whatever the text, the user→supervisor and
    supervisor→response edges are animated at once, and a timer due 2000 ms
    later clears the user→supervisor animation. *)
Theorem first_hop_effects trace chatData w p :
  agentFlowRef w = Some p → good w →
  trace_action trace = Some (JStr "modelInvocationInput") →
  truthy (trace_collaborator trace) = false →
  ∃ w' p',
    handleTraceUpdate trace chatData w = (Ok (), w')
    ∧ agentFlowRef w' = Some p' ∧ good w'
    ∧ node_traces p' "supervisor" =
        node_traces p "supervisor"
        ++ (if truthy (trace_text trace)
            then [ {| timestamp := clock w;
                      text := or_empty (trace_text trace) |} ]
            else [])
    ∧ stats_animated p' "e-user-supervisor" = Some true
    ∧ shown_animated p' "e-user-supervisor" = [true]
    ∧ stats_animated p' "e-supervisor-response" = Some true
    ∧ shown_animated p' "e-supervisor-response" = [true]
    ∧ {| due := clock w + 2000;
         callback := ClearEdgeAnimation "e-user-supervisor" |} ∈ timers w'
    ∧ ∀ dt, 2000 ≤ dt →
        ∃ w'' p'', advance dt w' = (Ok (), w'') ∧ agentFlowRef w'' = Some p''
          ∧ stats_animated p'' "e-user-supervisor" = Some false
          ∧ shown_animated p'' "e-user-supervisor" = [false].
Proof.
  intros Hr Hg Ha Hc.
  pose proof (good_attached w p Hr Hg) as Hwf.
  pose proof (good_timers w Hg) as Hts.
  set (t1 := {| due := clock w + 2000;
                callback := ClearEdgeAnimation "e-user-supervisor" |}).
  assert (Hmain : wp (handleTraceUpdate trace chatData) (λ _ w', ∃ p',
    agentFlowRef w' = Some p' ∧ good w' ∧ clock w' = clock w
    ∧ node_traces p' "supervisor" =
        node_traces p "supervisor"
        ++ (if truthy (trace_text trace)
            then [ {| timestamp := clock w;
                      text := or_empty (trace_text trace) |} ]
            else [])
    ∧ stats_animated p' "e-user-supervisor" = Some true
    ∧ stats_animated p' "e-supervisor-response" = Some true
    ∧ t1 ∈ timers w') w).
  { unfold handleTraceUpdate.
    apply wp_bind, wp_console_log, wp_bind, wp_now. simpl.
    apply wp_bind. unfold classify. rewrite Ha, Hc. simpl.
    apply wp_bind, wp_console_log, wp_bind.
    eapply step_trace; [exact Hr|done|in_list|].
    intros p1 Hwf1 N1 E1 S1 T1 D1.
    apply wp_bind. eapply step_animate; [reflexivity|done|in_list|].
    intros s2 p2 L2 Hwf2 N2 E2 D2 S2.
    apply wp_bind. eapply step_animate; [reflexivity|done|in_list|].
    intros s3 p3 L3 Hwf3 N3 E3 D3 S3.
    apply wp_setTimeout.
    eapply wp_mono; [eapply respond_spec; [reflexivity|done]|].
    intros _ w' (p' & Hr' & Hwf' & Hck & N4 & E4 & S4 & D4 & Hreply).
    exists p'. simpl in Hck. split; [done|].
    assert (Hin : t1 ∈ timers w').
    { destruct (chatData ≫= bot) as [reply|];
        [destruct (truthy_str (Some reply))|];
        destruct Hreply as [_ ->]; simpl;
        first [apply elem_of_enqueue | apply enqueue_keeps, elem_of_enqueue]. }
    assert (Hok : Forall timer_ok (timers w')).
    { assert (Forall timer_ok (enqueue t1 (timers w))).
      { apply Forall_enqueue; [|done]. unfold timer_ok. simpl. in_list. }
      destruct (chatData ≫= bot) as [reply|];
        [destruct (truthy_str (Some reply))|];
        destruct Hreply as [_ ->]; simpl; try done.
      apply Forall_enqueue; [|done]. unfold timer_ok. simpl. in_list. }
    split; [split; [by rewrite Hr'|done]|]. split; [done|].
    split.
    { unfold node_traces in *. rewrite D4 by done. by rewrite D3, D2. }
    unfold stats_animated. rewrite S4, S3.
    split; [|split; [by rewrite lookup_insert_eq|done]].
    rewrite lookup_insert_ne by done. rewrite S2.
    by rewrite lookup_insert_eq. }
  destruct (wp_returns _ _ _ Hmain)
    as ([] & w' & Hrun & p' & Hr' & Hg' & Hck & Htr & A1 & A2 & Hin).
  exists w', p'.
  pose proof (good_attached w' p' Hr' Hg') as Hwf'.
  destruct (wf_shown p' "e-user-supervisor" Hwf') as [Sh1 _]; [in_list|].
  destruct (wf_shown p' "e-supervisor-response" Hwf') as [Sh2 _]; [in_list|].
  rewrite A1 in Sh1. rewrite A2 in Sh2.
  do 9 (split; [done|]).
  intros dt Hdt.
  apply (advance_returns dt w' p' t1); try done.
  simpl. rewrite Hck. lia.
Qed.

(** ** Edges that a statistics update leaves alone *)

Lemma obj_get_agree {V} (bare : V) (o o' : gmap string V) k :
  o' !! k = o !! k → obj_get bare o' k = obj_get bare o k.
Proof. intros H. unfold obj_get. by rewrite H. Qed.

Lemma wf_edge_cases p e :
  wf p → e ∈ edges p → endpoints e ∈ map endpoints createInitialLoanEdges.
Proof.
  intros (_ & <- & _) He. apply list_elem_of_fmap. by exists e.
Qed.

Lemma synced_fixed p e :
  wf p → e ∈ edges p → syncEdge (edgeStats p) e = e.
Proof.
  intros Hwf He. apply wf_synced in Hwf.
  induction (edges p) as [|x l IH]; [by apply elem_of_nil in He|].
  injection Hwf as Hx Hl.
  apply elem_of_cons in He as [->|He]; [done|auto].
Qed.

Lemma target_edges_frame p p' n :
  wf p →
  edges p' = map (syncEdge (edgeStats p')) (edges p) →
  (∀ e, e ∈ edges p → target e = n →
        edgeStats p' !! edge_id e = edgeStats p !! edge_id e) →
  filter (λ e, target e = n) (edges p')
  = filter (λ e, target e = n) (edges p).
Proof.
  intros Hwf -> Hsame.
  assert (Hfix : ∀ e, e ∈ edges p → target e = n →
                      syncEdge (edgeStats p') e = e).
  { intros e He Ht. rewrite <- (synced_fixed p e Hwf He) at 2.
    unfold syncEdge. by rewrite (obj_get_agree _ _ _ _ (Hsame e He Ht)). }
  clear Hsame Hwf. induction (edges p) as [|x l IH]; [done|].
  simpl. rewrite !filter_cons. simpl.
  rewrite IH by (intros e He; apply Hfix; by right).
  destruct (decide (target x = n)) as [Ht|Ht]; [|done].
  rewrite Hfix; [done|by left|done].
Qed.

Lemma sync_twice s s' l :
  map (syncEdge s') (map (syncEdge s) l) = map (syncEdge s') l.
Proof. rewrite map_map. by apply map_ext. Qed.

Lemma collaboratorNode_cases v :
  (collaboratorNode v = "loanApplicant" ∧ v = Some (JStr loan_agent))
  ∨ (collaboratorNode v = "broker" ∧ v ≠ Some (JStr loan_agent)).
Proof.
  unfold collaboratorNode. destruct (is_str v loan_agent) eqn:E.
  - left. by apply is_str_true in E.
  - right. split; [done|]. intros H%is_str_true. congruence.
Qed.

(** C4.  A trace with action "modelInvocationOutput" and a collaborator
    name: the name selects "loanApplicant" exactly when it is the
    loan-applicant constant and "broker" otherwise; the call count of the
    supervisor→node edge goes up by exactly one, the edge is animated and
    a timer due 2000 ms later clears the animation; nothing held about the
    other collaborator node changes. *)
Theorem collaborator_effects trace chatData w p :
  agentFlowRef w = Some p → good w →
  trace_action trace = Some (JStr "modelInvocationOutput") →
  truthy (trace_collaborator trace) = true →
  let nodeId := collaboratorNode (trace_collaborator trace) in
  let other := otherCollaborator nodeId in
  let edge := "e-supervisor-" +:+ nodeId in
  (nodeId = "loanApplicant"
   ↔ trace_collaborator trace = Some (JStr loan_agent))
  ∧ (nodeId = "broker" ↔ trace_collaborator trace ≠ Some (JStr loan_agent))
  ∧ ∃ w' p' n,
      handleTraceUpdate trace chatData w = (Ok (), w')
      ∧ agentFlowRef w' = Some p' ∧ good w'
      ∧ stats_calls p edge = Some (Count n)
      ∧ stats_calls p' edge = Some (Count (n + 1))
      ∧ shown_label p' edge = [Some (pretty (n + 1)%N +:+ " calls")]
      ∧ stats_animated p' edge = Some true
      ∧ shown_animated p' edge = [true]
      ∧ {| due := clock w + 2000; callback := ClearEdgeAnimation edge |}
        ∈ timers w'
      ∧ (∀ dt, 2000 ≤ dt →
           ∃ w'' p'', advance dt w' = (Ok (), w'')
             ∧ agentFlowRef w'' = Some p''
             ∧ stats_animated p'' edge = Some false
             ∧ shown_animated p'' edge = [false])
      ∧ node_view p' other = node_view p other
      ∧ node_traces p' nodeId =
          node_traces p nodeId
          ++ (if truthy (trace_text trace)
              then [ {| timestamp := clock w;
                        text := or_empty (trace_text trace) |} ]
              else []).
Proof.
  intros Hr Hg Ha Hc nodeId other edge.
  pose proof (good_attached w p Hr Hg) as Hwf.
  pose proof (good_timers w Hg) as Hts.
  assert (Hid : (nodeId = "loanApplicant" ∧ other = "broker"
                 ∧ trace_collaborator trace = Some (JStr loan_agent))
              ∨ (nodeId = "broker" ∧ other = "loanApplicant"
                 ∧ trace_collaborator trace ≠ Some (JStr loan_agent))).
  { subst other nodeId.
    destruct (collaboratorNode_cases (trace_collaborator trace))
      as [[-> ?]|[-> ?]]; [left|right]; done. }
  split; [destruct Hid as [(-> & _ & ?)|(-> & _ & ?)]; split; done|].
  split; [destruct Hid as [(-> & _ & ?)|(-> & _ & ?)]; split; done|].
  set (t1 := {| due := clock w + 2000; callback := ClearEdgeAnimation edge |}).
  assert (Hn : nodeId ∈ nodeIds)
    by (destruct Hid as [(-> & _)|(-> & _)]; in_list).
  assert (He : edge ∈ edgeIds)
    by (subst edge; destruct Hid as [(-> & _)|(-> & _)]; in_list).
  assert (Hmain : wp (handleTraceUpdate trace chatData) (λ _ w', ∃ p' n,
    agentFlowRef w' = Some p' ∧ good w' ∧ clock w' = clock w
    ∧ stats_calls p edge = Some (Count n)
    ∧ stats_calls p' edge = Some (Count (n + 1))
    ∧ stats_animated p' edge = Some true
    ∧ t1 ∈ timers w'
    ∧ node_view p' other = node_view p other
    ∧ node_traces p' nodeId =
        node_traces p nodeId
        ++ (if truthy (trace_text trace)
            then [ {| timestamp := clock w;
                      text := or_empty (trace_text trace) |} ]
            else [])) w).
  { unfold handleTraceUpdate.
    apply wp_bind, wp_console_log, wp_bind, wp_now. simpl.
    apply wp_bind. unfold classify. rewrite Ha, Hc. simpl.
    fold nodeId. fold edge.
    apply wp_bind.
    eapply step_trace; [exact Hr|done|done|].
    intros p1 Hwf1 N1 E1 S1 T1 D1.
    apply wp_bind. eapply step_increment; [reflexivity|done|done|].
    intros s2 n p2 L2 C2 Hwf2 N2 E2 D2 S2.
    apply wp_bind. eapply step_animate; [reflexivity|done|done|].
    intros s3 p3 L3 Hwf3 N3 E3 D3 S3.
    apply wp_setTimeout.
    eapply wp_mono; [eapply respond_spec; [reflexivity|done]|].
    intros _ w' (p' & Hr' & Hwf' & Hck & N4 & E4 & S4 & D4 & Hreply).
    exists p', n. simpl in Hck. split; [done|].
    assert (Hin : t1 ∈ timers w').
    { destruct (chatData ≫= bot) as [reply|];
        [destruct (truthy_str (Some reply))|];
        destruct Hreply as [_ ->]; simpl;
        first [apply elem_of_enqueue | apply enqueue_keeps, elem_of_enqueue]. }
    assert (Hok : Forall timer_ok (timers w')).
    { assert (Forall timer_ok (enqueue t1 (timers w))).
      { apply Forall_enqueue; [|done]. by unfold timer_ok. }
      destruct (chatData ≫= bot) as [reply|];
        [destruct (truthy_str (Some reply))|];
        destruct Hreply as [_ ->]; simpl; try done.
      apply Forall_enqueue; [|done]. unfold timer_ok. simpl. in_list. }
    split; [split; [by rewrite Hr'|done]|]. split; [done|].
    assert (Hstats : edgeStats p' =
      <[edge := {| callCount := Some (Count (n + 1));
                   isAnimated := Some true |}]> (edgeStats p)).
    { rewrite S4, S3, S2, S1. rewrite S2 in L3.
      rewrite lookup_insert_eq in L3. injection L3 as <-. simpl.
      by rewrite insert_insert_eq. }
    split; [unfold stats_calls; by rewrite <- S1, L2|].
    split; [unfold stats_calls; by rewrite Hstats, lookup_insert_eq|].
    split; [unfold stats_animated; by rewrite Hstats, lookup_insert_eq|].
    split; [done|].
    assert (Hne : other ≠ nodeId ∧ other ≠ "response"
                  ∧ "e-supervisor-" +:+ other ≠ edge
                  ∧ ∀ x, x ∈ map endpoints createInitialLoanEdges →
                         x.2 = other → x.1.1 ≠ edge).
    { subst edge.
      destruct Hid as [(-> & -> & _)|(-> & -> & _)];
        (do 3 (split; [done|])); intros x Hx Hto; simpl in Hx;
        repeat (apply elem_of_cons in Hx as [->|Hx]); try done;
        by apply elem_of_nil in Hx. }
    destruct Hne as (Hne1 & Hne2 & Hne3 & Hne4).
    split.
    { unfold node_view, node_data.
      rewrite N4, N3, N2, N1.
      rewrite (D4 other Hne2), D3, D2, (D1 other Hne1).
      rewrite Hstats, lookup_insert_ne by done.
      rewrite (target_edges_frame p p' other); [done|done| |].
      - rewrite E4, E3, E2, E1, S4. by rewrite sync_twice.
      - intros e Hin' Ht. rewrite Hstats.
        apply lookup_insert_ne. intros Heq.
        apply (Hne4 (endpoints e)); [by apply (wf_edge_cases p)|done|done]. }
    unfold node_traces in *.
    destruct (decide (nodeId = "response")) as [Hresp|Hresp].
    { exfalso. destruct Hid as [(Hx & _)|(Hx & _)]; rewrite Hx in Hresp;
        discriminate Hresp. }
    rewrite (D4 nodeId Hresp), D3, D2. done. }
  destruct (wp_returns _ _ _ Hmain)
    as ([] & w' & Hrun & p' & n & Hr' & Hg' & Hck & C0 & C1 & A1 & Hin
        & Hview & Htr).
  exists w', p', n.
  pose proof (good_attached w' p' Hr' Hg') as Hwf'.
  destruct (wf_shown p' edge Hwf' He) as [Sh1 Sh2].
  rewrite A1 in Sh1. rewrite C1 in Sh2. simpl in Sh1, Sh2.
  replace (N.ltb 0 (n + 1)) with true in Sh2
    by (symmetry; apply N.ltb_lt; lia).
  do 9 (split; [done|]).
  split; [|done].
  intros dt Hdt.
  apply (advance_returns dt w' p' t1); try done.
  simpl. rewrite Hck. lia.
Qed.

(** ** Any trace at all *)

Lemma collaborator_known v :
  collaboratorNode v ∈ nodeIds
  ∧ "e-supervisor-" +:+ collaboratorNode v ∈ edgeIds
  ∧ collaboratorNode v ≠ "response".
Proof.
  unfold collaboratorNode. destruct (is_str v loan_agent);
    (split; [in_list|split; [in_list|done]]).
Qed.

(** Rules 1–3 keep the panel well formed and never touch the "response"
    node, the clock or an already pending timer. *)
Lemma classify_spec trace entry w p :
  agentFlowRef w = Some p → good w →
  wp (classify trace entry) (λ _ w', ∃ p',
      agentFlowRef w' = Some p' ∧ good w' ∧ clock w' = clock w
      ∧ nodes p' = nodes p
      ∧ nodeDetailsMap p' !! "response" = nodeDetailsMap p !! "response"
      ∧ ∀ t, t ∈ timers w → t ∈ timers w') w.
Proof.
  intros Hr Hg.
  pose proof (good_attached w p Hr Hg) as Hwf.
  pose proof (good_timers w Hg) as Hts.
  destruct (collaborator_known (trace_collaborator trace)) as (Kn & Ke & Kr).
  unfold classify.
  destruct (is_str (trace_action trace) "modelInvocationInput"
            && negb (truthy (trace_collaborator trace)));
    [|destruct (is_str (trace_action trace) "modelInvocationOutput"
               && truthy (trace_collaborator trace));
      [|destruct (is_str (trace_action trace) "modelInvocationOutput"
                 && negb (truthy (trace_collaborator trace)))]].
  - apply wp_bind, wp_console_log, wp_bind.
    eapply step_trace; [exact Hr|done|in_list|].
    intros p1 Hwf1 N1 E1 S1 T1 D1.
    apply wp_bind. eapply step_animate; [reflexivity|done|in_list|].
    intros s2 p2 L2 Hwf2 N2 E2 D2 S2.
    apply wp_bind. eapply step_animate; [reflexivity|done|in_list|].
    intros s3 p3 L3 Hwf3 N3 E3 D3 S3.
    apply wp_setTimeout. exists p3. simpl.
    split; [done|]. split.
    { split; [done|]. simpl. apply Forall_enqueue; [|done].
      unfold timer_ok. simpl. in_list. }
    split; [done|]. split; [congruence|].
    split; [rewrite D3, D2; by apply D1|].
    intros t. apply enqueue_keeps.
  - apply wp_bind.
    eapply step_trace; [exact Hr|done|done|].
    intros p1 Hwf1 N1 E1 S1 T1 D1.
    apply wp_bind. eapply step_increment; [reflexivity|done|done|].
    intros s2 n p2 L2 C2 Hwf2 N2 E2 D2 S2.
    apply wp_bind. eapply step_animate; [reflexivity|done|done|].
    intros s3 p3 L3 Hwf3 N3 E3 D3 S3.
    apply wp_setTimeout. exists p3. simpl.
    split; [done|]. split.
    { split; [done|]. simpl. apply Forall_enqueue; [|done].
      by unfold timer_ok. }
    split; [done|]. split; [congruence|].
    split; [rewrite D3, D2; apply D1; congruence|].
    intros t. apply enqueue_keeps.
  - eapply step_trace; [exact Hr|done|in_list|].
    intros p1 Hwf1 N1 E1 S1 T1 D1. exists p1. simpl.
    split; [done|]. split; [by split|].
    split; [done|]. split; [done|]. split; [by apply D1|done].
  - apply wp_ret. by exists p.
Qed.

Lemma classify_detached trace entry w :
  agentFlowRef w = None → Forall timer_ok (timers w) →
  wp (classify trace entry) (λ _ w',
      agentFlowRef w' = None ∧ Forall timer_ok (timers w')
      ∧ clock w' = clock w) w.
Proof.
  intros Hr Hts.
  destruct (collaborator_known (trace_collaborator trace)) as (Kn & Ke & Kr).
  unfold classify.
  destruct (is_str (trace_action trace) "modelInvocationInput"
            && negb (truthy (trace_collaborator trace)));
    [|destruct (is_str (trace_action trace) "modelInvocationOutput"
               && truthy (trace_collaborator trace));
      [|destruct (is_str (trace_action trace) "modelInvocationOutput"
                 && negb (truthy (trace_collaborator trace)))]].
  - apply wp_bind, wp_console_log, wp_bind, wp_when.
    assert (Hskip : ∀ call (Q : unit → World → Prop) w0,
              agentFlowRef w0 = None → Q () w0 → wp (agentFlow call) Q w0)
      by (intros; by apply wp_agentFlow_detached).
    destruct (truthy (trace_text trace)); [apply Hskip; [done|]|];
      (apply wp_bind, Hskip; [done|]; apply wp_bind, Hskip; [done|];
       apply wp_setTimeout; simpl; repeat split; try done;
       apply Forall_enqueue; [|done]; unfold timer_ok; simpl; in_list).
  - apply wp_bind, wp_when.
    destruct (truthy (trace_text trace));
      [apply wp_agentFlow_detached; [done|]|];
      (apply wp_bind, wp_agentFlow_detached; [done|];
       apply wp_bind, wp_agentFlow_detached; [done|];
       apply wp_setTimeout; simpl; repeat split; try done;
       apply Forall_enqueue; [|done]; by unfold timer_ok).
  - apply wp_when. destruct (truthy (trace_text trace));
      [by apply wp_agentFlow_detached|done].
  - by apply wp_ret.
Qed.

Lemma respond_detached chatData w :
  agentFlowRef w = None → Forall timer_ok (timers w) →
  wp (respond chatData) (λ _ w',
      agentFlowRef w' = None ∧ Forall timer_ok (timers w')
      ∧ clock w' = clock w) w.
Proof.
  intros Hr Hts. unfold respond.
  destruct (chatData ≫= bot) as [reply|]; [|by apply wp_ret].
  apply wp_when. destruct (truthy_str (Some reply)); [|done].
  apply wp_bind, wp_now, wp_bind, wp_agentFlow_detached; [done|].
  apply wp_setTimeout. simpl. repeat split; try done.
  apply Forall_enqueue; [|done]. unfold timer_ok. simpl. in_list.
Qed.

(** On a well-formed world the classifier always returns, and leaves the
    world well formed. *)
Lemma handleTraceUpdate_good trace chatData w :
  good w →
  wp (handleTraceUpdate trace chatData) (λ _ w',
      good w' ∧ clock w' = clock w
      ∧ (is_Some (agentFlowRef w') ↔ is_Some (agentFlowRef w))) w.
Proof.
  intros Hg. unfold handleTraceUpdate.
  apply wp_bind, wp_console_log, wp_bind, wp_now. simpl. apply wp_bind.
  destruct (agentFlowRef w) as [p|] eqn:Hr.
  - eapply wp_mono; [eapply (classify_spec _ _ _ p); [exact Hr|]|].
    { destruct Hg as [Hp Ht]. by split. }
    intros _ w1 (p1 & Hr1 & Hg1 & Hc1 & _).
    eapply wp_mono; [eapply (respond_spec _ _ p1);
                     [done|by apply (good_attached w1)]|].
    intros _ w2 (p2 & Hr2 & Hwf2 & Hc2 & _ & _ & _ & _ & Hreply).
    split; [split; [by rewrite Hr2|]|].
    + pose proof (good_timers _ Hg1) as Hts.
      destruct (chatData ≫= bot) as [reply|];
        [destruct (truthy_str (Some reply))|];
        destruct Hreply as [_ ->]; try done.
      apply Forall_enqueue; [|done]. unfold timer_ok. simpl. in_list.
    + rewrite Hc2, Hc1. split; [done|]. by rewrite Hr2.
  - eapply wp_mono; [eapply classify_detached; [exact Hr|by destruct Hg]|].
    intros _ w1 (Hr1 & Ht1 & Hc1).
    eapply wp_mono; [eapply respond_detached; done|].
    intros _ w2 (Hr2 & Ht2 & Hc2).
    split; [split; [by rewrite Hr2|done]|].
    rewrite Hc2, Hc1. split; [done|]. rewrite Hr2. done.
Qed.

(** ** Handlers see the world only through its view *)

Create HintDb respects.

Lemma respects_ret {A} (a : A) : respects (mret a).
Proof. by intros w1 w2 H. Qed.

Lemma respects_throw {A} e : respects (@throw A e).
Proof. by intros w1 w2 H. Qed.

Lemma respects_bind {A B} (m : M A) (f : A → M B) :
  respects m → (∀ a, respects (f a)) → respects (m ≫= f).
Proof.
  intros Hm Hf w1 w2 H. unfold mbind, M_bind.
  destruct (Hm w1 w2 H) as [H1 H2].
  destruct (m w1) as [[a1|e1] w1'], (m w2) as [[a2|e2] w2'];
    simpl in *; try discriminate H1.
  - injection H1 as ->. by apply Hf.
  - by injection H1 as ->.
Qed.

Lemma respects_try_catch body handler :
  respects body → (∀ e, respects (handler e)) →
  respects (try_catch body handler).
Proof.
  intros Hm Hh w1 w2 H. unfold try_catch.
  destruct (Hm w1 w2 H) as [H1 H2].
  destruct (body w1) as [[a1|e1] w1'], (body w2) as [[a2|e2] w2'];
    simpl in *; try discriminate H1.
  - by injection H1 as ->.
  - injection H1 as ->. by apply Hh.
Qed.

Lemma respects_lift {A} (r : Result A) : respects (lift r).
Proof. destruct r; [apply respects_ret|apply respects_throw]. Qed.

Lemma respects_console_log msg : respects (console_log msg).
Proof. by intros [] [] [= -> -> ->]. Qed.

Lemma respects_console_error msg : respects (console_error msg).
Proof. by intros [] [] [= -> -> ->]. Qed.

Lemma respects_now : respects now.
Proof. by intros [] [] [= -> -> ->]. Qed.

Lemma respects_setTimeout cb delay : respects (setTimeout cb delay).
Proof. by intros [] [] [= -> -> ->]. Qed.

Lemma respects_refetch : respects refetch.
Proof. by intros [] [] [= -> -> ->]. Qed.

Lemma respects_onNewMessage : respects onNewMessage.
Proof. by intros [] [] [= -> -> ->]. Qed.

Lemma respects_agentFlow call : respects (agentFlow call).
Proof.
  intros [r1 ? ? ? ? ?] [r2 ? ? ? ? ?] [= -> -> ->]. unfold agentFlow. simpl.
  destruct r2 as [p|]; [|done]. by destruct (call p).
Qed.

Lemma respects_when b m : respects m → respects (when b m).
Proof. destruct b; [done|intros _; apply respects_ret]. Qed.

#[export] Hint Resolve respects_ret respects_throw respects_lift
  respects_console_log respects_console_error respects_now
  respects_setTimeout respects_refetch respects_onNewMessage
  respects_agentFlow respects_when : respects.

Ltac respects_step :=
  first
    [ apply respects_bind; [|intros ?]
    | apply respects_try_catch; [|intros ?]
    | match goal with
      | |- respects (if ?b then _ else _) => destruct b
      | |- respects (match ?x with _ => _ end) => destruct x
      end
    | solve [auto with respects] ].

Lemma respects_classify trace entry : respects (classify trace entry).
Proof. unfold classify. repeat respects_step. Qed.

Lemma respects_respond chatData : respects (respond chatData).
Proof.
  unfold respond. destruct (chatData ≫= bot); [|apply respects_ret].
  apply respects_when. repeat respects_step.
Qed.

Lemma respects_handleTraceUpdate trace chatData :
  respects (handleTraceUpdate trace chatData).
Proof.
  unfold handleTraceUpdate.
  repeat first [apply respects_classify | apply respects_respond
               | respects_step].
Qed.

Section FeedProperties.

Variable JSON_parse : string → option json.

Lemma respects_next d : respects (next JSON_parse d).
Proof.
  unfold next, parse.
  repeat first [apply respects_handleTraceUpdate | apply respects_when
               | respects_step].
Qed.

Lemma respects_fire_all ts : respects (fire_all ts).
Proof.
  induction ts as [|t ts IH]; [apply respects_ret|].
  simpl. apply respects_bind; [|done].
  unfold fire. destruct (callback t). apply respects_agentFlow.
Qed.

Lemma respects_advance dt : respects (advance dt).
Proof.
  intros [] [] [= -> -> ->]. unfold advance. simpl.
  by apply respects_fire_all.
Qed.

Lemma respects_step_ s : respects (step JSON_parse s).
Proof. destruct s; [apply respects_next|apply respects_advance]. Qed.

Lemma run_respects ss : ∀ w1 w2,
  view w1 = view w2 →
  view (run JSON_parse ss w1) = view (run JSON_parse ss w2).
Proof.
  induction ss as [|s ss IH]; intros w1 w2 H; [done|].
  simpl. destruct (respects_step_ s w1 w2 H) as [H1 H2].
  destruct (step JSON_parse s w1) as [[[]|e1] w1'],
           (step JSON_parse s w2) as [[[]|e2] w2'];
    simpl in *; try discriminate H1; auto.
Qed.

End FeedProperties.

(** ** The subscription handler *)

Lemma wp_try_catch body handler (Q : unit → World → Prop) w :
  match body w with
  | (Ok a, w') => Q a w'
  | (Throw e, w') => wp (handler e) Q w'
  end →
  wp (try_catch body handler) Q w.
Proof.
  unfold wp at 2, try_catch. destruct (body w) as [[a|e] w']; [done|].
  intros H. exact H.
Qed.

Lemma wp_refetch (Q : unit → World → Prop) w :
  Q () (snd (refetch w)) → wp refetch Q w.
Proof. done. Qed.

Lemma wp_onNewMessage (Q : unit → World → Prop) w :
  Q () (snd (onNewMessage w)) → wp onNewMessage Q w.
Proof. done. Qed.

Lemma member_bind {B} j k (K : jsval → M B) w :
  (lift (member j k) ≫= K) w
  = match j with
    | JNull => (Throw TypeError, w)
    | _ => K (prop k j) w
    end.
Proof. by destruct j. Qed.

Section Handler.

Variable JSON_parse : string → option json.

Lemma parse_bind {B} s (F : json → M B) w :
  (parse JSON_parse s ≫= F) w
  = match JSON_parse s with
    | Some j => F j w
    | None => (Throw SyntaxError, w)
    end.
Proof. unfold parse. by destruct (JSON_parse s). Qed.

(** The handler returns normally whatever it is given: everything that
    can raise sits inside the [try]. *)
Lemma next_total d w : ∃ w', next JSON_parse d w = (Ok (), w').
Proof.
  assert (H : wp (next JSON_parse d) (λ _ _, True) w).
  { unfold next. apply wp_bind, wp_console_log, wp_bind.
    destruct (d ≫= payload) as [p0|]; [|done].
    apply wp_when. destruct (truthy_str (Some p0)); [|done].
    apply wp_try_catch.
    match goal with |- match ?b with _ => _ end => destruct b as [[?|?] ?] end;
      done. }
  destruct (wp_returns _ _ _ H) as ([] & w' & Hrun & _). eauto.
Qed.

Lemma next_good d w :
  good w →
  wp (next JSON_parse d) (λ _ w',
      good w' ∧ clock w' = clock w
      ∧ (is_Some (agentFlowRef w') ↔ is_Some (agentFlowRef w))) w.
Proof.
  intros Hg. unfold next. apply wp_bind, wp_console_log, wp_bind.
  set (w0 := with_console _ w).
  assert (Hg0 : good w0) by done.
  assert (Htail : ∀ w1,
    good w1 ∧ clock w1 = clock w
    ∧ (is_Some (agentFlowRef w1) ↔ is_Some (agentFlowRef w)) →
    wp (refetch ;; onNewMessage) (λ _ w',
      good w' ∧ clock w' = clock w
      ∧ (is_Some (agentFlowRef w') ↔ is_Some (agentFlowRef w))) w1).
  { intros w1 H. apply wp_bind, wp_refetch, wp_onNewMessage. exact H. }
  destruct (d ≫= payload) as [p0|]; [|by apply wp_ret, Htail].
  apply wp_when. destruct (truthy_str (Some p0)); [|by apply Htail].
  assert (Hdispatch : ∀ tr : jsval,
    ∃ w1, (if truthy tr then handleTraceUpdate (default JNull tr) d
           else if truthy_str (d ≫= bot) then handleTraceUpdate JNull d
           else mret ()) w0 = (Ok (), w1)
          ∧ good w1 ∧ clock w1 = clock w
          ∧ (is_Some (agentFlowRef w1) ↔ is_Some (agentFlowRef w))).
  { intros tr.
    destruct (truthy tr); [|destruct (truthy_str (d ≫= bot))];
      try (by exists w0);
      match goal with
      | |- context [handleTraceUpdate ?t _ _] =>
          destruct (wp_returns _ _ _ (handleTraceUpdate_good t d w0 Hg0))
            as ([] & w1 & E & H1)
      end; by exists w1. }
  apply wp_try_catch. rewrite parse_bind.
  destruct (JSON_parse p0) as [parsed|]; [|by apply Htail].
  rewrite member_bind.
  destruct parsed; try (by apply Htail);
    match goal with
    | |- context [prop ?k ?j] =>
        destruct (Hdispatch (prop k j)) as (w1 & E & H1)
    end; rewrite E; by apply Htail.
Qed.

End Handler.

Section Run.

Variable JSON_parse : string → option json.

Lemma advance_good dt w :
  good w →
  wp (advance dt) (λ _ w',
      good w'
      ∧ (is_Some (agentFlowRef w') ↔ is_Some (agentFlowRef w))) w.
Proof.
  intros [Hp Hts]. unfold advance.
  assert (Hready : Forall timer_ok
            (filter (λ t, due t ≤ clock w + dt) (timers w))).
  { rewrite Forall_forall in Hts |- *.
    intros x [_ Hx]%list_elem_of_filter. auto. }
  assert (Hlater : Forall timer_ok
            (filter (λ t, ¬ due t ≤ clock w + dt) (timers w))).
  { rewrite Forall_forall in Hts |- *.
    intros x [_ Hx]%list_elem_of_filter. auto. }
  destruct (agentFlowRef w) as [p|] eqn:Hr.
  - eapply wp_mono; [eapply fire_all_attached; exact Hr|].
    intros _ w' (p' & Hr' & Ht & _ & Hwf & _). simpl in Ht.
    split; [split|].
    + rewrite Hr'. simpl. by apply Hwf.
    + by rewrite Ht.
    + by rewrite Hr'.
  - unfold wp. rewrite fire_all_detached by exact Hr. simpl.
    rewrite Hr. by repeat split.
Qed.

Lemma step_good s w :
  good w →
  ∃ w', step JSON_parse s w = (Ok (), w') ∧ good w'
    ∧ (is_Some (agentFlowRef w') ↔ is_Some (agentFlowRef w)).
Proof.
  intros Hg. destruct s as [d|dt]; simpl.
  - destruct (wp_returns _ _ _ (next_good JSON_parse d w Hg))
      as ([] & w' & E & H1 & _ & H2). eauto.
  - destruct (wp_returns _ _ _ (advance_good dt w Hg))
      as ([] & w' & E & H1 & H2). eauto.
Qed.

(** Every run from a well-formed world stays well formed. *)
Lemma run_good ss : ∀ w,
  good w →
  good (run JSON_parse ss w)
  ∧ (is_Some (agentFlowRef (run JSON_parse ss w))
     ↔ is_Some (agentFlowRef w)).
Proof.
  induction ss as [|s ss IH]; intros w Hg; [done|].
  simpl. destruct (step_good s w Hg) as (w' & -> & Hg' & Href).
  destruct (IH w' Hg') as [H1 H2]. split; [done|]. by rewrite H2.
Qed.

End Run.

(** The response block runs whatever the trace was. *)
Lemma final_response_any_trace trace chatData reply w p :
  chatData ≫= bot = Some reply → reply ≠ EmptyString →
  agentFlowRef w = Some p → good w →
  ∃ w' p', handleTraceUpdate trace chatData w = (Ok (), w')
    ∧ agentFlowRef w' = Some p' ∧ good w' ∧ clock w' = clock w
    ∧ node_traces p' "response" =
        node_traces p "response"
        ++ [ {| timestamp := clock w; text := JStr reply |} ]
    ∧ {| due := clock w + 2000;
         callback := ClearEdgeAnimation "e-supervisor-response" |}
      ∈ timers w'.
Proof.
  intros Hbot Hreply Hr Hg.
  assert (Htruthy : truthy_str (Some reply) = true).
  { simpl. apply negb_true_iff, String.eqb_neq. done. }
  assert (Hmain : wp (handleTraceUpdate trace chatData) (λ _ w', ∃ p',
    agentFlowRef w' = Some p' ∧ good w' ∧ clock w' = clock w
    ∧ node_traces p' "response" =
        node_traces p "response"
        ++ [ {| timestamp := clock w; text := JStr reply |} ]
    ∧ {| due := clock w + 2000;
         callback := ClearEdgeAnimation "e-supervisor-response" |}
      ∈ timers w') w).
  { unfold handleTraceUpdate.
    apply wp_bind, wp_console_log, wp_bind, wp_now. simpl. apply wp_bind.
    eapply wp_mono; [eapply (classify_spec _ _ _ p); [exact Hr|]|].
    { destruct Hg. by split. }
    intros _ w1 (p1 & Hr1 & Hg1 & Hc1 & _ & D1 & _).
    eapply wp_mono; [eapply (respond_spec _ _ p1);
                     [done|by apply (good_attached w1)]|].
    intros _ w2 (p2 & Hr2 & Hwf2 & Hc2 & _ & _ & _ & _ & Hresp).
    rewrite Hbot, Htruthy in Hresp. destruct Hresp as [Htr Htm].
    exists p2. simpl in Hc1. rewrite Hc1 in Htr, Htm.
    split; [done|]. split.
    { split; [by rewrite Hr2|]. rewrite Htm.
      apply Forall_enqueue; [|by apply good_timers].
      unfold timer_ok. simpl. in_list. }
    split; [by rewrite Hc2|]. split.
    { rewrite Htr. unfold node_traces. by rewrite D1. }
    rewrite Htm. apply elem_of_enqueue. }
  destruct (wp_returns _ _ _ Hmain) as ([] & w' & Hrun & p' & H).
  by exists w', p'.
Qed.

(** ** Bot replies *)

(** C5, as stated, fails: an event that carries the bot reply "Approved"
    but no payload never reaches the classifier; the "response" node gains
    no trace and no timer is set. *)
Lemma bot_reply_without_payload_dropped :
  bot approved_without_payload = Some "Approved"
  ∧ view (snd (next sample_parse (Some approved_without_payload)
                      initialWorld))
    = view initialWorld
  ∧ node_traces initialPanel "response" = []
  ∧ timers initialWorld = [].
Proof. vm_compute. done. Qed.

(** C5, amended.  An event that carries a bot reply and whose payload is a
    non-empty string parsing to a non-null value: whatever the trace, the
    "response" node gains one trace entry with the reply text, and a timer
    due 2000 ms later clears the supervisor→response animation. *)
Theorem bot_reply_registered JSON_parse c reply p0 parsed w p :
  bot c = Some reply → reply ≠ EmptyString →
  payload c = Some p0 → p0 ≠ EmptyString →
  JSON_parse p0 = Some parsed → parsed ≠ JNull →
  agentFlowRef w = Some p → good w →
  ∃ w' p',
    next JSON_parse (Some c) w = (Ok (), w')
    ∧ agentFlowRef w' = Some p' ∧ good w'
    ∧ node_traces p' "response" =
        node_traces p "response"
        ++ [ {| timestamp := clock w; text := JStr reply |} ]
    ∧ {| due := clock w + 2000;
         callback := ClearEdgeAnimation "e-supervisor-response" |}
      ∈ timers w'
    ∧ ∀ dt, 2000 ≤ dt →
        ∃ w'' p'', advance dt w' = (Ok (), w'') ∧ agentFlowRef w'' = Some p''
          ∧ stats_animated p'' "e-supervisor-response" = Some false
          ∧ shown_animated p'' "e-supervisor-response" = [false].
Proof.
  intros Hbot Hreply Hpay Hp0 Hparse Hnull Hr Hg.
  set (w0 := with_console (console w ++ [Log "New chat message received:"]) w).
  assert (Hg0 : good w0) by done.
  assert (Hdispatch : ∃ w1 p1,
    (if truthy (prop "trace" parsed)
     then handleTraceUpdate (default JNull (prop "trace" parsed)) (Some c)
     else if truthy_str (Some c ≫= bot)
          then handleTraceUpdate JNull (Some c) else mret ()) w0
    = (Ok (), w1)
    ∧ agentFlowRef w1 = Some p1 ∧ good w1 ∧ clock w1 = clock w
    ∧ node_traces p1 "response" =
        node_traces p "response"
        ++ [ {| timestamp := clock w; text := JStr reply |} ]
    ∧ {| due := clock w + 2000;
         callback := ClearEdgeAnimation "e-supervisor-response" |}
      ∈ timers w1).
  { assert (Htruthy : truthy_str (Some c ≫= bot) = true).
    { simpl. rewrite Hbot. simpl. by apply negb_true_iff, String.eqb_neq. }
    rewrite Htruthy.
    destruct (truthy (prop "trace" parsed));
      eapply (final_response_any_trace _ (Some c) reply w0 p); done. }
  destruct Hdispatch as (w1 & p1 & Hrun & Hr1 & Hg1 & Hc1 & Htr & Hin).
  exists (snd (onNewMessage (snd (refetch w1)))), p1.
  split.
  { assert (Hwp : wp (next JSON_parse (Some c))
                     (λ _ w', w' = snd (onNewMessage (snd (refetch w1)))) w).
    { unfold next. apply wp_bind, wp_console_log, wp_bind.
      change (Some c ≫= payload) with (payload c). rewrite Hpay.
      apply wp_when.
      replace (truthy_str (Some p0)) with true
        by (symmetry; simpl; by apply negb_true_iff, String.eqb_neq).
      apply wp_try_catch. rewrite parse_bind, Hparse, member_bind.
      subst w0.
      destruct parsed; try done; cbv beta; rewrite Hrun; done. }
    destruct (wp_returns _ _ _ Hwp) as ([] & w' & E & ->). exact E. }
  split; [done|]. split; [done|]. split; [done|]. split; [done|].
  intros dt Hdt.
  eapply (advance_returns dt _ p1); [done|done|exact Hin|done|].
  simpl. rewrite Hc1. lia.
Qed.

Lemma bot_reply_registered_witness :
  ∃ w' p',
    next sample_parse (Some approved_with_payload) initialWorld
    = (Ok (), w')
    ∧ agentFlowRef w' = Some p'
    ∧ node_traces p' "response" =
        [ {| timestamp := 0; text := JStr "Approved" |} ].
Proof.
  destruct (bot_reply_registered sample_parse approved_with_payload
              "Approved" "{}" (JObj []) initialWorld initialPanel)
    as (w' & p' & H1 & H2 & _ & H3 & _);
    [reflexivity|discriminate|reflexivity|discriminate|reflexivity
    |discriminate|reflexivity
    |apply (bool_decide_unpack _); vm_compute; exact I|].
  exists w', p'. split; [exact H1|]. split; [exact H2|exact H3].
Defined.

(** ** Malformed payloads *)

(** C6.  An event whose payload string [JSON.parse] rejects: the handler
    returns normally, the panel, the timers and the clock are as before,
    the error is logged (when the payload is non-empty, otherwise nothing
    is parsed), the refetch and new-message signals still go out, and the
    rest of the run proceeds exactly as if the event had not arrived. *)
Theorem malformed_payload_dropped JSON_parse c p0 w :
  payload c = Some p0 → JSON_parse p0 = None →
  ∃ w',
    next JSON_parse (Some c) w = (Ok (), w')
    ∧ view w' = view w
    ∧ console w' =
        console w ++ Log "New chat message received:"
        :: (if truthy_str (Some p0)
            then [Error "Error processing chat payload:"] else [])
    ∧ refetches w' = S (refetches w)
    ∧ newMessages w' = S (newMessages w)
    ∧ ∀ ss, view (run JSON_parse (Deliver (Some c) :: ss) w)
            = view (run JSON_parse ss w).
Proof.
  intros Hpay Hparse.
  assert (Hwp : wp (next JSON_parse (Some c)) (λ _ w',
    view w' = view w
    ∧ console w' =
        console w ++ Log "New chat message received:"
        :: (if truthy_str (Some p0)
            then [Error "Error processing chat payload:"] else [])
    ∧ refetches w' = S (refetches w)
    ∧ newMessages w' = S (newMessages w)) w).
  { unfold next. apply wp_bind, wp_console_log, wp_bind.
    change (Some c ≫= payload) with (payload c). rewrite Hpay.
    apply wp_when. destruct (truthy_str (Some p0)).
    - apply wp_try_catch. rewrite parse_bind, Hparse.
      unfold wp. simpl. by rewrite <- app_assoc.
    - unfold wp. simpl. done. }
  destruct (wp_returns _ _ _ Hwp) as ([] & w' & E & Hv & Hc & Hf & Hm).
  exists w'. do 5 (split; [done|]).
  intros ss. simpl. rewrite E. by apply run_respects.
Qed.

Lemma malformed_payload_dropped_witness :
  ∃ w', next sample_parse (Some malformed_event) initialWorld = (Ok (), w')
    ∧ view w' = view initialWorld.
Proof.
  destruct (malformed_payload_dropped sample_parse malformed_event
              "{not json" initialWorld) as (w' & H1 & H2 & _);
    [reflexivity|reflexivity|].
  exists w'. split; [exact H1|exact H2].
Defined.

(** ** A collaborator on an input trace *)

Lemma respond_silent chatData w :
  truthy_str (chatData ≫= bot) = false → respond chatData w = (Ok (), w).
Proof.
  unfold respond. destruct (chatData ≫= bot) as [reply|]; [|done].
  by intros ->.
Qed.

(** C10.  A trace with action "modelInvocationInput" that names a
    collaborator matches none of the three branches: the classifier then
    does exactly what it does for a null trace, that is, only the
    final-response block can act; with no bot reply nothing changes but the
    console. *)
Theorem input_with_collaborator_skipped trace chatData w :
  trace_action trace = Some (JStr "modelInvocationInput") →
  truthy (trace_collaborator trace) = true →
  (∀ entry, classify trace entry w = (Ok (), w))
  ∧ handleTraceUpdate trace chatData w = handleTraceUpdate JNull chatData w
  ∧ (truthy_str (chatData ≫= bot) = false →
     handleTraceUpdate trace chatData w
     = (Ok (), with_console (console w ++ [Log "Processing trace:"]) w)).
Proof.
  intros Ha Hc.
  assert (Hclass : ∀ entry, classify trace entry = mret ()).
  { intros entry. unfold classify. by rewrite Ha, Hc. }
  split; [intros entry; by rewrite Hclass|].
  assert (Heq : handleTraceUpdate trace chatData w
                = handleTraceUpdate JNull chatData w).
  { unfold handleTraceUpdate, mbind, M_bind. simpl. by rewrite Hclass. }
  split; [done|].
  intros Hbot. rewrite Heq.
  assert (Hwp : wp (handleTraceUpdate JNull chatData) (λ _ w',
    w' = with_console (console w ++ [Log "Processing trace:"]) w) w).
  { unfold handleTraceUpdate.
    apply wp_bind, wp_console_log, wp_bind, wp_now. cbv beta zeta.
    apply wp_bind, wp_ret. unfold wp. by rewrite respond_silent. }
  destruct (wp_returns _ _ _ Hwp) as ([] & w' & E & ->). exact E.
Qed.

Lemma input_with_collaborator_skipped_witness :
  handleTraceUpdate trace_input_with_collaborator None initialWorld
  = (Ok (), with_console [Log "Processing trace:"] initialWorld).
Proof.
  apply (input_with_collaborator_skipped trace_input_with_collaborator None
           initialWorld); reflexivity.
Defined.

(** ** Sample runs of the classifier *)

Lemma good_initialWorld : good initialWorld.
Proof. by_compute. Qed.

Lemma first_hop_effects_witness :
  ∃ w' p',
    handleTraceUpdate trace_first_hop None initialWorld = (Ok (), w')
    ∧ agentFlowRef w' = Some p'
    ∧ node_traces p' "supervisor" = [ {| timestamp := 0; text := JStr "hello" |} ]
    ∧ shown_animated p' "e-user-supervisor" = [true]
    ∧ shown_animated p' "e-supervisor-response" = [true].
Proof.
  destruct (first_hop_effects trace_first_hop None initialWorld initialPanel)
    as (w' & p' & H1 & H2 & _ & H3 & _ & H4 & _ & H5 & _);
    [reflexivity|by_compute|reflexivity|reflexivity|].
  exists w', p'. repeat split; assumption.
Defined.

Lemma collaborator_effects_witness :
  ∃ w' p',
    handleTraceUpdate trace_loan_output None initialWorld = (Ok (), w')
    ∧ agentFlowRef w' = Some p'
    ∧ stats_calls p' "e-supervisor-loanApplicant" = Some (Count 1)
    ∧ shown_label p' "e-supervisor-loanApplicant" = [Some "1 calls"]
    ∧ node_view p' "broker" = node_view initialPanel "broker".
Proof.
  destruct (collaborator_effects trace_loan_output None initialWorld
              initialPanel)
    as (_ & _ & w' & p' & n & H1 & H2 & _ & H3 & H4 & H5 & _ & _ & _ & _
        & H6 & _);
    [reflexivity|by_compute|reflexivity|reflexivity|].
  exists w', p'. split; [exact H1|]. split; [exact H2|].
  assert (n = 0%N) as -> by (vm_compute in H3; congruence).
  repeat split; assumption.
Defined.

(** ** Identifiers outside the fixed sets *)

(** C1, as stated, fails.  On the initial panel, with identifiers outside
    the fixed sets: [incrementEdgeCount] and [addNodeTrace] raise, and
    [updateEdgeAnimation] returns a panel that differs from the one it was
    given. *)
Lemma unknown_identifier_not_noop :
  unknown_identifier (CallIncrementEdgeCount "e-broker-response")
  ∧ invoke (CallIncrementEdgeCount "e-broker-response") initialPanel
    = Throw TypeError
  ∧ unknown_identifier (CallAddNodeTrace "auditor" sample_trace)
  ∧ invoke (CallAddNodeTrace "auditor" sample_trace) initialPanel
    = Throw TypeError
  ∧ unknown_identifier (CallUpdateEdgeAnimation "e-broker-response" true)
  ∧ invoke (CallUpdateEdgeAnimation "e-broker-response" true) initialPanel
    ≠ Ok initialPanel.
Proof.
  split; [by_compute|]. split; [by vm_compute|].
  split; [by_compute|]. split; [by vm_compute|].
  split; [by_compute|].
  intros H. apply (f_equal (λ r, match r with
                                 | Ok p => edgeStats p !! "e-broker-response"
                                 | Throw _ => None
                                 end)) in H.
  vm_compute in H. discriminate H.
Qed.

Lemma edges_frame p stats :
  wf p →
  (∀ e, e ∈ edges p → stats !! edge_id e = edgeStats p !! edge_id e) →
  map (syncEdge stats) (edges p) = edges p.
Proof.
  intros Hwf Hsame.
  assert (Hfix : ∀ e, e ∈ edges p → syncEdge stats e = e).
  { intros e He. rewrite <- (synced_fixed p e Hwf He) at 2.
    unfold syncEdge. by rewrite (obj_get_agree _ _ _ _ (Hsame e He)). }
  clear Hsame Hwf. induction (edges p) as [|x l IH]; [done|].
  simpl. rewrite IH by (intros e He; apply Hfix; by right).
  rewrite Hfix; [done|by left].
Qed.

Lemma wf_stats_fresh p i : wf p → i ∉ edgeIds → edgeStats p !! i = None.
Proof.
  intros (_ & _ & _ & _ & Hd & _) Hi.
  apply not_elem_of_dom. rewrite Hd. by rewrite elem_of_list_to_set.
Qed.

(** C1, amended.  With an identifier outside the fixed sets,
    [updateNodeState] is a no-op and does not raise; [updateEdgeAnimation]
    does not raise and changes no node, no displayed edge, no node details
    and no existing statistics entry: it only files the flag under the new
    identifier. *)
Theorem unknown_identifier_calls p i :
  wf p →
  (i ∉ nodeIds → ∀ s, updateNodeState i s p = Ok p)
  ∧ (i ∉ edgeIds → ∀ b,
       ∃ p', updateEdgeAnimation i b p = Ok p'
         ∧ nodes p' = nodes p
         ∧ edges p' = edges p
         ∧ nodeDetailsMap p' = nodeDetailsMap p
         ∧ edgeStats p !! i = None
         ∧ edgeStats p' =
             <[i := {| callCount := None; isAnimated := Some b |}]>
               (edgeStats p)).
Proof.
  intros Hwf. split.
  - intros Hi s. unfold updateNodeState, setNodes.
    assert (Hmap : ∀ f : CustomNode → CustomNode,
              (∀ n, n ∈ nodes p → f n = n) → map f (nodes p) = nodes p).
    { intros f Hf. induction (nodes p) as [|x l IH]; [done|].
      simpl. rewrite Hf by (by left). rewrite IH; [done|].
      intros n Hn. apply Hf. by right. }
    rewrite Hmap; [by destruct p|].
    intros n Hn.
    destruct (String.eqb (node_id n) i) eqn:E; [|done].
    apply String.eqb_eq in E. subst i. exfalso. apply Hi.
    destruct Hwf as (<- & _). apply list_elem_of_fmap. by exists n.
  - intros Hi b.
    pose proof (wf_stats_fresh p i Hwf Hi) as Hnone.
    eexists. split; [reflexivity|]. simpl.
    rewrite (obj_get_fresh _ _ _ Hnone). simpl.
    do 1 (split; [done|]). split; [|done].
    apply edges_frame; [done|].
    intros e He. apply lookup_insert_ne. intros Heq. apply Hi.
    rewrite <- (wf_edge_ids p Hwf). apply list_elem_of_fmap. by exists e.
Qed.

Lemma unknown_identifier_calls_witness :
  updateNodeState "auditor"
    {| set_isProcessing := Some true; set_processingComplete := None |}
    initialPanel
  = Ok initialPanel.
Proof.
  apply (unknown_identifier_calls initialPanel "auditor"); by_compute.
Defined.

(** ** The graph is fixed *)

(** C2, as stated, fails: the edge list has four entries, not five, and
    neither collaborator has an edge to "response". *)
Lemma edge_set_not_five :
  length createInitialLoanEdges = 4
  ∧ length createInitialLoanEdges ≠ 5
  ∧ size initialEdgeStats = 4
  ∧ filter (λ e, source e = "loanApplicant" ∨ source e = "broker")
           createInitialLoanEdges = [].
Proof. by vm_compute. Qed.

Lemma invoke_keeps_graph c p p' :
  invoke c p = Ok p' →
  map node_id (nodes p') = map node_id (nodes p)
  ∧ map endpoints (edges p') = map endpoints (edges p).
Proof.
  destruct c as [e b|e|n s|n t]; simpl.
  - intros [= <-]. simpl. by rewrite map_endpoints_sync.
  - unfold incrementEdgeCount, setEdgeStats.
    destruct (obj_get bareStats (edgeStats p) e); [|done].
    intros [= <-]. simpl. by rewrite map_endpoints_sync.
  - intros [= <-]. simpl. split; [|done].
    rewrite map_map. apply map_ext. intros a.
    by destruct (String.eqb (node_id a) n).
  - unfold addNodeTrace, setNodeDetailsMap.
    destruct (obj_get bareDetails (nodeDetailsMap p) n); [|done].
    by intros [= <-].
Qed.

Lemma isValidNodeType_nodeIds i : isValidNodeType i = true ↔ i ∈ nodeIds.
Proof.
  unfold isValidNodeType. rewrite bool_decide_eq_true.
  unfold nodeIds. simpl. rewrite !elem_of_cons, !elem_of_nil. tauto.
Qed.

(** C2, amended.  The graph has exactly four fixed edges, user→supervisor
    and supervisor→{loanApplicant, broker, response}, over five fixed
    nodes; no call of the imperative handle adds or removes a node or an
    edge, and over any run of delivered events and timers the node
    identifiers, the edges' identifiers and end points, and the keys of the
    statistics and details maps stay those of the initial graph. *)
Theorem graph_fixed :
  map endpoints createInitialLoanEdges
  = [ ("e-user-supervisor", "user", "supervisor");
      ("e-supervisor-loanApplicant", "supervisor", "loanApplicant");
      ("e-supervisor-broker", "supervisor", "broker");
      ("e-supervisor-response", "supervisor", "response") ]
  ∧ nodeIds = ["user"; "supervisor"; "loanApplicant"; "broker"; "response"]
  ∧ (∀ i, isValidNodeType i = true ↔ i ∈ nodeIds)
  ∧ dom initialEdgeStats = list_to_set edgeIds
  ∧ (∀ c p p', invoke c p = Ok p' →
       map node_id (nodes p') = map node_id (nodes p)
       ∧ map endpoints (edges p') = map endpoints (edges p))
  ∧ (∀ JSON_parse ss w p,
       agentFlowRef w = Some p → good w →
       ∃ p', agentFlowRef (run JSON_parse ss w) = Some p'
         ∧ map node_id (nodes p') = nodeIds
         ∧ map endpoints (edges p') = map endpoints createInitialLoanEdges
         ∧ dom (edgeStats p') = list_to_set edgeIds
         ∧ dom (nodeDetailsMap p') = list_to_set nodeIds).
Proof.
  split; [done|]. split; [done|].
  split; [apply isValidNodeType_nodeIds|]. split; [by_compute|].
  split; [apply invoke_keeps_graph|].
  intros JSON_parse ss w p Hr Hg.
  destruct (run_good JSON_parse ss w Hg) as [Hg' Href].
  rewrite Hr in Href. destruct Href as [_ [p' Hr']]; [by eexists|].
  exists p'. split; [done|].
  destruct (good_attached _ p' Hr' Hg') as (H1 & H2 & _ & H3 & H4 & _).
  done.
Qed.

Lemma graph_fixed_witness :
  ∃ p', agentFlowRef (run sample_parse
                          [Deliver (Some first_hop_event); Advance 2000]
                          initialWorld) = Some p'
    ∧ map node_id (nodes p') = nodeIds
    ∧ map endpoints (edges p') = map endpoints createInitialLoanEdges.
Proof.
  destruct graph_fixed as (_ & _ & _ & _ & _ & H).
  destruct (H sample_parse [Deliver (Some first_hop_event); Advance 2000]
              initialWorld initialPanel) as (p' & H1 & H2 & H3 & _);
    [reflexivity|by_compute|].
  exists p'. split; [exact H1|]. split; [exact H2|exact H3].
Defined.

(** ** Displayed turns *)

Lemma groupedMessages_from chats : ∀ acc,
  fold_left
    (λ acc chat, if truthy_str (human chat) then acc ++ [grouped chat] else acc)
    chats acc
  = acc ++ map grouped (filter (λ c, truthy_str (human c)) chats).
Proof.
  induction chats as [|c chats IH]; intros acc; simpl.
  - by rewrite app_nil_r.
  - rewrite IH, filter_cons.
    destruct (truthy_str (human c)); simpl; [|done].
    by rewrite <- app_assoc.
Qed.

Lemma groupedMessages_filter chats :
  groupedMessages chats
  = map grouped (filter (λ c, truthy_str (human c)) chats).
Proof. unfold groupedMessages. by rewrite groupedMessages_from. Qed.








(** ** Document previews *)

(** C8, as stated, fails: a file that is neither a PDF nor an image is
    rendered as a clickable thumbnail, not as a plain label. *)
Lemma unknown_file_not_plain_label :
  getFileType (doc_id notes_doc) = unknown
  ∧ plain_label (renderDocumentPreview notes_doc) = false
  ∧ renderDocumentPreview notes_doc
    = Box (Some "notes.txt")
        [ Img "https://files.example/notes.txt" "Notes"
              (WindowOpen "https://files.example/notes.txt" "_blank");
          Span [ Text "Notes" ] ].
Proof. by vm_compute. Qed.

Lemma lower_idemp c : lower (lower c) = lower c.
Proof. destruct c as [[] [] [] [] [] [] [] []]; reflexivity. Qed.

Lemma toLowerCase_idemp s : toLowerCase (toLowerCase s) = toLowerCase s.
Proof. induction s as [|c s IH]; simpl; [done|]. by rewrite lower_idemp, IH. Qed.

(** C8, amended.  The preview depends on the file type only through
    "PDF or not": a PDF (extension compared without regard to case) is an
    icon and a link to the document opening in a new tab; any other file,
    image or not, is a thumbnail that opens the document in a new tab when
    clicked, followed by the title. *)
Theorem preview_by_file_type doc :
  (getFileType (doc_id doc) = pdf →
     renderDocumentPreview doc
     = Box (Some (doc_id doc))
         [ Icon None "normal" (Some "error");
           Box None
             [ Anchor (imageUrl doc) "_blank" "noopener noreferrer"
                 [ Text (doc_title doc); Icon (Some "external") "small" None ] ] ]
     ∧ has_anchor (renderDocumentPreview doc) = true
     ∧ has_img (renderDocumentPreview doc) = false)
  ∧ (getFileType (doc_id doc) ≠ pdf →
     renderDocumentPreview doc
     = Box (Some (doc_id doc))
         [ Img (imageUrl doc) (doc_title doc)
               (WindowOpen (imageUrl doc) "_blank");
           Span [ Text (doc_title doc) ] ]
     ∧ has_img (renderDocumentPreview doc) = true
     ∧ has_anchor (renderDocumentPreview doc) = false
     ∧ plain_label (renderDocumentPreview doc) = false)
  ∧ getFileType (toLowerCase (doc_id doc)) = getFileType (doc_id doc).
Proof.
  split; [|split].
  - intros H. unfold renderDocumentPreview. by rewrite H.
  - intros H. unfold renderDocumentPreview, plain_label.
    by destruct (getFileType (doc_id doc)).
  - unfold getFileType. by rewrite toLowerCase_idemp.
Qed.

Lemma preview_by_file_type_witness :
  has_img (renderDocumentPreview scan_doc) = true.
Proof.
  apply (preview_by_file_type scan_doc). vm_compute. discriminate.
Defined.

(** ** Subscription life cycle *)

Lemma elem_of_open_subscriptions c i :
  i ∈ open_subscriptions c ↔ is_open c i.
Proof.
  unfold open_subscriptions, is_open. rewrite list_elem_of_filter.
  split; [by intros [? _]|]. intros H. split; [done|].
  apply elem_of_seq. split; [lia|]. simpl.
  destruct (subscriptions c !! i) eqn:E; [|done].
  by apply lookup_lt_Some in E.
Qed.

Lemma NoDup_open_subscriptions c : NoDup (open_subscriptions c).
Proof. apply NoDup_filter, NoDup_seq. Qed.

Lemma only_member {A} (l : list A) x :
  NoDup l → (∀ y, y ∈ l ↔ y = x) → l = [x].
Proof.
  intros Hnd Hl. destruct l as [|a l].
  - exfalso. by apply (elem_of_nil x), Hl.
  - assert (a = x) as -> by (apply Hl; by left).
    destruct l as [|b l]; [done|]. exfalso.
    assert (b = x) by (apply Hl; right; by left). subst b.
    apply NoDup_cons in Hnd as [Hnd _]. apply Hnd. by left.
Qed.

Lemma no_member {A} (l : list A) : (∀ y, y ∉ l) → l = [].
Proof. destruct l as [|a l]; [done|]. intros H. exfalso. apply (H a). by left. Qed.

Lemma tidy_open_subscriptions c :
  tidy c →
  open_subscriptions c
  = match mounted c with
    | Some (_, i) => [i]
    | None => []
    end.
Proof.
  intros [Hopen _]. destruct (mounted c) as [[d i]|] eqn:E.
  - apply only_member; [apply NoDup_open_subscriptions|].
    intros j. rewrite elem_of_open_subscriptions, Hopen.
    split; [by intros [? [= _ ->]]|intros ->; eauto].
  - apply no_member. intros j. rewrite elem_of_open_subscriptions, Hopen.
    by intros [? ?].
Qed.

Lemma tidy_effect d c :
  (∀ i, ¬ is_open c i) → tidy (effect d c).
Proof.
  intros Hnone. unfold effect, setupSubscription, log_line. simpl.
  set (new := {| variables_userID := default EmptyString (userID d);
                 closed := false |}).
  split; simpl.
  - intros i. unfold is_open. simpl. split.
    + intros H. exists d.
      destruct (decide (i < length (subscriptions c))) as [Hlt|Hge].
      * rewrite lookup_app_l in H by done. by destruct (Hnone i).
      * destruct (decide (i = length (subscriptions c))) as [->|Hne]; [done|].
        rewrite lookup_ge_None_2 in H; [done|].
        rewrite length_app. simpl. lia.
    + intros [d' [= _ <-]]. by rewrite list_lookup_middle.
  - intros d' i [= <- <-]. by rewrite list_lookup_middle.
Qed.

Lemma cleanup_closes sub c :
  (∀ i, is_open c i → i = sub) → ∀ i, ¬ is_open (cleanup sub c) i.
Proof.
  intros Honly i. unfold is_open, cleanup, log_line. simpl.
  destruct (decide (i = sub)) as [->|Hne].
  - rewrite list_lookup_alter_eq.
    by destruct (subscriptions c !! sub).
  - rewrite list_lookup_alter_ne by done. intros H. by apply Hne, Honly.
Qed.

Section ControllerProperties.

Variable JSON_parse : string → option json.

Lemma tidy_lifecycle e c : tidy c → tidy (lifecycle JSON_parse e c).
Proof.
  intros Ht. pose proof Ht as [Hopen Hcur].
  assert (Honly : ∀ d sub, mounted c = Some (d, sub) →
                           ∀ i, is_open c i → i = sub).
  { intros d sub Hm i [d' Hi]%Hopen. congruence. }
  destruct e as [d|d| |i data|dt]; unfold lifecycle;
    destruct (mounted c) as [[d0 sub]|] eqn:Hm; try exact Ht.
  - apply tidy_effect. intros i [d' Hi]%Hopen. done.
  - destruct (decide (d = d0)); [done|].
    apply tidy_effect, cleanup_closes, (Honly d0). done.
  - pose proof (cleanup_closes sub c (Honly d0 sub eq_refl)) as Hclosed.
    split; simpl.
    + intros i. split; [by intros ?%Hclosed|by intros [? ?]].
    + done.
  - destruct (subscriptions c !! i) as [s|]; [|done].
    destruct (closed s); [done|]. exact Ht.
  - destruct (subscriptions c !! i) as [s|]; [|done].
    destruct (closed s); [done|]. exact Ht.
Qed.

Lemma lifecycle_run_snoc es e c :
  lifecycle_run JSON_parse (es ++ [e]) c
  = lifecycle JSON_parse e (lifecycle_run JSON_parse es c).
Proof. unfold lifecycle_run. by rewrite fold_left_app. Qed.

Lemma tidy_lifecycle_run es : ∀ c,
  tidy c → tidy (lifecycle_run JSON_parse es c).
Proof.
  induction es as [|e es IH]; intros c Ht; [done|].
  simpl. by apply IH, tidy_lifecycle.
Qed.

Lemma tidy_initial w : tidy (initialController w).
Proof.
  split; [|done]. intros i. unfold is_open. simpl.
  split; [done|by intros [? ?]].
Qed.

(** C9.  Along any history of mounts, re-renders, unmounts, emissions
    and timers: while the controller is mounted exactly one subscription
    delivers, opened for the current user; unmounting leaves none; a
    change of user closes the old subscription and opens a fresh one for
    the new user; and an emission on a subscription that no longer
    delivers changes nothing at all: no refetch of the turn list, no
    new-message signal, no update of the panel. *)
Theorem one_subscription_per_mount w0 es :
  let c := lifecycle_run JSON_parse es (initialController w0) in
  open_subscriptions c
  = match mounted c with
    | Some (_, i) => [i]
    | None => []
    end
  ∧ (∀ d i, mounted c = Some (d, i) →
       subscriptions c !! i
       = Some {| variables_userID := default EmptyString (userID d);
                 closed := false |})
  ∧ mounted (lifecycle JSON_parse Unmount c) = None
  ∧ open_subscriptions (lifecycle JSON_parse Unmount c) = []
  ∧ (∀ d i d', mounted c = Some (d, i) → userID d' ≠ userID d →
       let c' := lifecycle JSON_parse (Render d') c in
       closed <$> subscriptions c' !! i = Some true
       ∧ ∃ j, j ≠ i ∧ mounted c' = Some (d', j)
           ∧ open_subscriptions c' = [j]
           ∧ subscriptions c' !! j
             = Some {| variables_userID := default EmptyString (userID d');
                       closed := false |})
  ∧ (∀ i data, i ∉ open_subscriptions c →
       lifecycle JSON_parse (Push i data) c = c).
Proof.
  intros c.
  assert (Ht : tidy c) by apply tidy_lifecycle_run, tidy_initial.
  split; [by apply tidy_open_subscriptions|].
  split; [by destruct Ht|].
  pose proof (tidy_lifecycle Unmount c Ht) as Hun.
  assert (Hnone : mounted (lifecycle JSON_parse Unmount c) = None).
  { unfold lifecycle. by destruct (mounted c) as [[? ?]|] eqn:E. }
  split; [done|].
  split; [by rewrite (tidy_open_subscriptions _ Hun), Hnone|].
  split.
  - intros d i d' Hm Huser c'.
    pose proof (tidy_lifecycle (Render d') c Ht) as Ht'. fold c' in Ht'.
    destruct Ht as [Hopen Hcur]. pose proof (Hcur d i Hm) as Hi.
    assert (Hlt : i < length (subscriptions c))
      by (by apply lookup_lt_Some in Hi).
    assert (Hc' : c' = effect d' (cleanup i c)).
    { unfold c', lifecycle. rewrite Hm.
      destruct (decide (d' = d)) as [->|]; [done|done]. }
    assert (Hm' : mounted c' = Some (d', length (subscriptions c))).
    { rewrite Hc'. unfold effect, setupSubscription, cleanup, log_line.
      simpl. by rewrite length_alter. }
    split.
    + rewrite Hc'. unfold effect, setupSubscription, cleanup, log_line.
      simpl. rewrite lookup_app_l by (by rewrite length_alter).
      by rewrite list_lookup_alter_eq, Hi.
    + exists (length (subscriptions c)). split; [lia|]. split; [done|].
      split; [by rewrite (tidy_open_subscriptions _ Ht'), Hm'|].
      destruct Ht' as [_ Hcur']. by apply Hcur'.
  - intros i data Hi. rewrite elem_of_open_subscriptions in Hi.
    unfold lifecycle, is_open in *.
    assert (Hskip : match subscriptions c !! i with
                    | Some s =>
                        if closed s then c
                        else with_world
                               (snd (next JSON_parse data (world c))) c
                    | None => c
                    end = c).
    { destruct (subscriptions c !! i) as [s|]; [|done].
      simpl in Hi. destruct (closed s); [done|]. by destruct Hi. }
    by destruct (mounted c) as [[? ?]|].
Qed.

End ControllerProperties.

Lemma one_subscription_per_mount_witness :
  open_subscriptions (lifecycle_run sample_parse sample_history
                        (initialController initialWorld)) = [1]
  ∧ subscriptions (lifecycle_run sample_parse sample_history
                     (initialController initialWorld)) !! 1
    = Some {| variables_userID := "bob"; closed := false |}
  ∧ lifecycle sample_parse (Push 0 (Some approved_with_payload))
      (lifecycle_run sample_parse sample_history
         (initialController initialWorld))
    = lifecycle_run sample_parse sample_history
        (initialController initialWorld).
Proof.
  destruct (one_subscription_per_mount sample_parse initialWorld
              sample_history) as (H1 & H2 & _ & _ & _ & H3).
  split; [exact H1|]. split; [apply (H2 bob 1); reflexivity|].
  apply H3. by_compute.
Defined.

(** ** What no handler undoes *)

Lemma evolves_refl p : evolves p p.
Proof.
  split; [done|]. split; [done|]. split; [done|].
  intros e k H. exists k. split; [done|lia].
Qed.

Lemma evolves_trans p1 p2 p3 : evolves p1 p2 → evolves p2 p3 → evolves p1 p3.
Proof.
  intros (N1 & S1 & T1 & C1) (N2 & S2 & T2 & C2).
  split; [congruence|]. split; [intros n; by rewrite S2|].
  split; [intros n; etrans; [apply T1|apply T2]|].
  intros e k H. destruct (C1 e k H) as (k1 & H1 & L1).
  destruct (C2 e k1 H1) as (k2 & H2 & L2). exists k2. split; [done|lia].
Qed.

Lemma ref_evolves_refl r : ref_evolves r r.
Proof. destruct r; [apply evolves_refl|done]. Qed.

Lemma ref_evolves_trans r1 r2 r3 :
  ref_evolves r1 r2 → ref_evolves r2 r3 → ref_evolves r1 r3.
Proof.
  destruct r1, r2, r3; simpl; try done. apply evolves_trans.
Qed.

Lemma addNodeTrace_evolves n t p p' :
  addNodeTrace n t p = Ok p' → evolves p p'.
Proof.
  unfold addNodeTrace, setNodeDetailsMap, obj_get.
  destruct (nodeDetailsMap p !! n) as [old|] eqn:E.
  - intros [= <-]. split; [done|]. split; [|split; [|intros e k Hk; exists k;
      split; [done|lia]]].
    + intros m. unfold node_static. simpl.
      destruct (decide (m = n)) as [->|Hne].
      * by rewrite lookup_insert_eq, E.
      * by rewrite lookup_insert_ne.
    + intros m. unfold node_traces. simpl.
      destruct (decide (m = n)) as [->|Hne].
      * rewrite lookup_insert_eq, E. simpl. by apply prefix_app_r.
      * by rewrite lookup_insert_ne.
  - case_bool_decide; [|done].
    intros [= <-]. split; [done|]. split; [|split; [|intros e k Hk; exists k;
      split; [done|lia]]].
    + intros m. unfold node_static. simpl.
      destruct (decide (m = n)) as [->|Hne].
      * by rewrite lookup_insert_eq, E.
      * by rewrite lookup_insert_ne.
    + intros m. unfold node_traces. simpl.
      destruct (decide (m = n)) as [->|Hne].
      * rewrite lookup_insert_eq, E. simpl. apply prefix_nil.
      * by rewrite lookup_insert_ne.
Qed.

Lemma updateEdgeAnimation_evolves e b p p' :
  updateEdgeAnimation e b p = Ok p' → evolves p p'.
Proof.
  intros [= <-]. split; [done|]. split; [done|]. split; [done|].
  intros x k. unfold stats_calls. simpl.
  destruct (decide (x = e)) as [->|Hne].
  - rewrite lookup_insert_eq. simpl. unfold obj_get.
    destruct (edgeStats p !! e) as [s|]; [|done]. simpl.
    intros H. exists k. split; [done|lia].
  - rewrite lookup_insert_ne by done. intros H. exists k. split; [done|lia].
Qed.

Lemma incrementEdgeCount_evolves e p p' :
  incrementEdgeCount e p = Ok p' → evolves p p'.
Proof.
  unfold incrementEdgeCount, setEdgeStats.
  destruct (obj_get bareStats (edgeStats p) e) as [old|] eqn:E; [|done].
  intros [= <-]. split; [done|]. split; [done|]. split; [done|].
  intros x k. unfold stats_calls. simpl.
  destruct (decide (x = e)) as [->|Hne].
  - rewrite lookup_insert_eq. simpl. unfold obj_get in E.
    destruct (edgeStats p !! e) as [s|]; [|done]. injection E as ->. simpl.
    intros ->. exists (k + 1)%N. split; [done|lia].
  - rewrite lookup_insert_ne by done. intros H. exists k. split; [done|lia].
Qed.

Create HintDb keeps.

Lemma keeps_ret {A} (a : A) : keeps (mret a).
Proof. intros w. apply ref_evolves_refl. Qed.

Lemma keeps_throw {A} e : keeps (@throw A e).
Proof. intros w. apply ref_evolves_refl. Qed.

Lemma keeps_lift {A} (r : Result A) : keeps (lift r).
Proof. destruct r; [apply keeps_ret|apply keeps_throw]. Qed.

Lemma keeps_bind {A B} (m : M A) (f : A → M B) :
  keeps m → (∀ a, keeps (f a)) → keeps (m ≫= f).
Proof.
  intros Hm Hf w. unfold mbind, M_bind. specialize (Hm w).
  destruct (m w) as [[a|e] w']; simpl in *; [|done].
  eapply ref_evolves_trans; [exact Hm|apply Hf].
Qed.

Lemma keeps_try_catch body handler :
  keeps body → (∀ e, keeps (handler e)) → keeps (try_catch body handler).
Proof.
  intros Hm Hh w. unfold try_catch. specialize (Hm w).
  destruct (body w) as [[a|e] w']; simpl in *; [done|].
  eapply ref_evolves_trans; [exact Hm|apply Hh].
Qed.

Lemma keeps_console_log msg : keeps (console_log msg).
Proof. intros w. apply ref_evolves_refl. Qed.

Lemma keeps_console_error msg : keeps (console_error msg).
Proof. intros w. apply ref_evolves_refl. Qed.

Lemma keeps_now : keeps now.
Proof. intros w. apply ref_evolves_refl. Qed.

Lemma keeps_setTimeout cb delay : keeps (setTimeout cb delay).
Proof. intros w. apply ref_evolves_refl. Qed.

Lemma keeps_refetch : keeps refetch.
Proof. intros w. apply ref_evolves_refl. Qed.

Lemma keeps_onNewMessage : keeps onNewMessage.
Proof. intros w. apply ref_evolves_refl. Qed.

Lemma keeps_agentFlow call :
  (∀ p p', call p = Ok p' → evolves p p') → keeps (agentFlow call).
Proof.
  intros Hcall w. unfold agentFlow.
  destruct (agentFlowRef w) as [p|] eqn:E; simpl; [|by rewrite E].
  destruct (call p) as [p'|e] eqn:C; simpl.
  - by apply Hcall.
  - rewrite E. apply evolves_refl.
Qed.

Lemma keeps_addNodeTrace n t : keeps (agentFlow (addNodeTrace n t)).
Proof. apply keeps_agentFlow. intros p p'. apply addNodeTrace_evolves. Qed.

Lemma keeps_updateEdgeAnimation e b :
  keeps (agentFlow (updateEdgeAnimation e b)).
Proof. apply keeps_agentFlow. intros p p'. apply updateEdgeAnimation_evolves. Qed.

Lemma keeps_incrementEdgeCount e : keeps (agentFlow (incrementEdgeCount e)).
Proof. apply keeps_agentFlow. intros p p'. apply incrementEdgeCount_evolves. Qed.

Lemma keeps_when b m : keeps m → keeps (when b m).
Proof. destruct b; [done|intros _; apply keeps_ret]. Qed.

#[export] Hint Resolve keeps_ret keeps_throw keeps_lift keeps_console_log
  keeps_console_error keeps_now keeps_setTimeout keeps_refetch
  keeps_onNewMessage keeps_addNodeTrace keeps_updateEdgeAnimation
  keeps_incrementEdgeCount keeps_when : keeps.

Ltac keeps_step :=
  first
    [ apply keeps_bind; [|intros ?]
    | apply keeps_try_catch; [|intros ?]
    | match goal with
      | |- keeps (if ?b then _ else _) => destruct b
      | |- keeps (match ?x with _ => _ end) => destruct x
      end
    | solve [auto with keeps] ].

Lemma keeps_classify trace entry : keeps (classify trace entry).
Proof. unfold classify. repeat keeps_step. Qed.

Lemma keeps_respond chatData : keeps (respond chatData).
Proof.
  unfold respond. destruct (chatData ≫= bot); [|apply keeps_ret].
  apply keeps_when. repeat keeps_step.
Qed.

Lemma keeps_handleTraceUpdate trace chatData :
  keeps (handleTraceUpdate trace chatData).
Proof.
  unfold handleTraceUpdate.
  repeat first [apply keeps_classify | apply keeps_respond | keeps_step].
Qed.

Section RunKeeps.

Variable JSON_parse : string → option json.

Lemma keeps_next d : keeps (next JSON_parse d).
Proof.
  unfold next, parse.
  repeat first [apply keeps_handleTraceUpdate | apply keeps_when
               | keeps_step].
Qed.

Lemma keeps_fire_all ts : keeps (fire_all ts).
Proof.
  induction ts as [|t ts IH]; [apply keeps_ret|].
  simpl. apply keeps_bind; [|done].
  unfold fire. destruct (callback t). apply keeps_updateEdgeAnimation.
Qed.

Lemma keeps_advance dt : keeps (advance dt).
Proof.
  intros w. unfold advance.
  match goal with |- context [fire_all ?ts ?w0] =>
    exact (keeps_fire_all ts w0) end.
Qed.

Lemma keeps_step_ s : keeps (step JSON_parse s).
Proof. destruct s; [apply keeps_next|apply keeps_advance]. Qed.

Lemma run_evolves ss : ∀ w,
  ref_evolves (agentFlowRef w) (agentFlowRef (run JSON_parse ss w)).
Proof.
  induction ss as [|s ss IH]; intros w; [apply ref_evolves_refl|].
  simpl. eapply ref_evolves_trans; [apply keeps_step_|apply IH].
Qed.

Lemma run_attached ss w p :
  agentFlowRef w = Some p →
  ∃ p', agentFlowRef (run JSON_parse ss w) = Some p' ∧ evolves p p'.
Proof.
  intros Hr. pose proof (run_evolves ss w) as H. rewrite Hr in H.
  destruct (agentFlowRef (run JSON_parse ss w)) as [p'|]; [|done].
  by exists p'.
Qed.

End RunKeeps.

(** X1.  Over any run of delivered events and timers from a well-formed
    world, each node's trace list only grows at its end, and the title,
    description and details held for a node never change. *)
Theorem traces_append_only JSON_parse ss w p :
  agentFlowRef w = Some p → good w →
  ∃ p', agentFlowRef (run JSON_parse ss w) = Some p'
    ∧ good (run JSON_parse ss w)
    ∧ ∀ n, node_traces p n `prefix_of` node_traces p' n
           ∧ node_static p' n = node_static p n.
Proof.
  intros Hr Hg. destruct (run_attached JSON_parse ss w p Hr)
    as (p' & Hr' & _ & Hs & Ht & _).
  exists p'. split; [done|].
  split; [apply (run_good JSON_parse ss w Hg)|].
  intros n. split; [apply Ht|apply Hs].
Qed.

Lemma traces_append_only_witness :
  ∃ p', agentFlowRef (run sample_parse sample_steps initialWorld) = Some p'
    ∧ node_traces initialPanel "supervisor"
      `prefix_of` node_traces p' "supervisor".
Proof.
  destruct (traces_append_only sample_parse sample_steps initialWorld
              initialPanel) as (p' & H1 & _ & H2); [reflexivity|by_compute|].
  exists p'. split; [exact H1|]. apply (H2 "supervisor").
Defined.

(** X2.  Over any run of delivered events and timers from a well-formed
    world, an edge's numeric call count never goes down and never stops
    being a number; every edge of the graph has such a count. *)
Theorem call_counts_never_decrease JSON_parse ss w p :
  agentFlowRef w = Some p → good w →
  ∃ p', agentFlowRef (run JSON_parse ss w) = Some p'
    ∧ (∀ e k, stats_calls p e = Some (Count k) →
         ∃ k', stats_calls p' e = Some (Count k') ∧ (k ≤ k')%N)
    ∧ ∀ e, e ∈ edgeIds →
        ∃ k k', stats_calls p e = Some (Count k)
          ∧ stats_calls p' e = Some (Count k') ∧ (k ≤ k')%N.
Proof.
  intros Hr Hg. destruct (run_attached JSON_parse ss w p Hr)
    as (p' & Hr' & _ & _ & _ & Hc).
  exists p'. split; [done|]. split; [exact Hc|].
  intros e He. pose proof (good_attached _ p Hr Hg) as Hwf.
  destruct (wf_stats_lookup p e Hwf He) as (s & k & Hs & Hk).
  assert (Hpk : stats_calls p e = Some (Count k))
    by (unfold stats_calls; by rewrite Hs).
  destruct (Hc e k Hpk) as (k' & H1 & H2). by exists k, k'.
Qed.

Lemma call_counts_never_decrease_witness :
  ∃ p' k', agentFlowRef (run sample_parse sample_steps initialWorld) = Some p'
    ∧ stats_calls p' "e-supervisor-broker" = Some (Count k') ∧ (0 ≤ k')%N.
Proof.
  destruct (call_counts_never_decrease sample_parse sample_steps initialWorld
              initialPanel) as (p' & H1 & H2 & _); [reflexivity|by_compute|].
  destruct (H2 "e-supervisor-broker" 0%N) as (k' & H3 & H4); [reflexivity|].
  exists p', k'. split; [exact H1|]. split; [exact H3|exact H4].
Defined.

Lemma className_initial n :
  n ∈ createInitialLoanNodes → className (data n) = "custom-agent-node  ".
Proof.
  unfold createInitialLoanNodes. rewrite !elem_of_cons, elem_of_nil.
  intros [->|[->|[->|[->|[->|[]]]]]]; reflexivity.
Qed.

(** X3.  No delivered event and no timer ever calls [updateNodeState]:
    over any run from a well-formed world the node list stays as it was,
    so starting from the initial panel no node is ever rendered with the
    "processing" or the "complete" class. *)
Theorem node_flags_never_set JSON_parse ss :
  (∀ w p, agentFlowRef w = Some p → good w →
     ∃ p', agentFlowRef (run JSON_parse ss w) = Some p'
       ∧ nodes p' = nodes p)
  ∧ ∃ p', agentFlowRef (run JSON_parse ss initialWorld) = Some p'
      ∧ ∀ n, n ∈ nodes p' → className (data n) = "custom-agent-node  ".
Proof.
  assert (H : ∀ w p, agentFlowRef w = Some p → good w →
     ∃ p', agentFlowRef (run JSON_parse ss w) = Some p'
       ∧ nodes p' = nodes p).
  { intros w p Hr _. destruct (run_attached JSON_parse ss w p Hr)
      as (p' & Hr' & Hn & _). by exists p'. }
  split; [exact H|].
  destruct (H initialWorld initialPanel eq_refl good_initialWorld)
    as (p' & Hr' & Hn).
  exists p'. split; [done|]. rewrite Hn. apply className_initial.
Qed.

Lemma node_flags_never_set_witness :
  ∃ p', agentFlowRef (run sample_parse sample_steps initialWorld) = Some p'
    ∧ nodes p' = nodes initialPanel.
Proof.
  apply (node_flags_never_set sample_parse sample_steps);
    [reflexivity|by_compute].
Defined.

(** X4.  Over any run from a well-formed world the displayed edges stay
    derived from the statistics: an edge is drawn animated exactly when its
    statistics entry says so, and its label is empty at count 0 and
    "<count> calls" above. *)
Theorem displayed_edges_follow_stats JSON_parse ss w p :
  agentFlowRef w = Some p → good w →
  ∃ p', agentFlowRef (run JSON_parse ss w) = Some p'
    ∧ ∀ e, e ∈ edges p' →
        animated e = default false (stats_animated p' (edge_id e))
        ∧ edge_label e = Some (calls_label (stats_calls p' (edge_id e)))
        ∧ ∃ k, stats_calls p' (edge_id e) = Some (Count k).
Proof.
  intros Hr Hg. destruct (run_good JSON_parse ss w Hg) as [Hg' Href].
  rewrite Hr in Href. destruct Href as [_ [p' Hr']]; [by eexists|].
  exists p'. split; [done|]. intros e He.
  pose proof (good_attached _ p' Hr' Hg') as Hwf.
  assert (Hid : edge_id e ∈ edgeIds).
  { rewrite <- (wf_edge_ids p' Hwf). apply list_elem_of_fmap. by exists e. }
  destruct (wf_stats_lookup p' (edge_id e) Hwf Hid) as (s & k & Hs & Hk).
  pose proof (synced_fixed p' e Hwf He) as Hfix.
  unfold syncEdge in Hfix. rewrite (obj_get_own _ _ _ _ Hs) in Hfix.
  unfold stats_animated, stats_calls. rewrite Hs. simpl in *.
  split; [by rewrite <- Hfix at 1|]. split; [by rewrite <- Hfix at 1|].
  by exists k.
Qed.

Lemma displayed_edges_follow_stats_witness :
  ∃ p', agentFlowRef (run sample_parse sample_steps initialWorld) = Some p'
    ∧ ∀ e, e ∈ edges p' →
        animated e = default false (stats_animated p' (edge_id e)).
Proof.
  destruct (displayed_edges_follow_stats sample_parse sample_steps
              initialWorld initialPanel) as (p' & H1 & H2);
    [reflexivity|by_compute|].
  exists p'. split; [exact H1|]. intros e He. apply (H2 e He).
Defined.

(** ** Timers are never late *)

Create HintDb punctual.

Lemma punctual_ret {A} (a : A) : punctual (mret a).
Proof. by intros w H. Qed.

Lemma punctual_throw {A} e : punctual (@throw A e).
Proof. by intros w H. Qed.

Lemma punctual_lift {A} (r : Result A) : punctual (lift r).
Proof. destruct r; [apply punctual_ret|apply punctual_throw]. Qed.

Lemma timely_same w w' :
  timers w' = timers w → clock w' = clock w → timely w → timely w'.
Proof. unfold timely. by intros -> ->. Qed.

Lemma punctual_bind {A B} (m : M A) (f : A → M B) :
  punctual m → (∀ a, punctual (f a)) → punctual (m ≫= f).
Proof.
  intros Hm Hf w Hw. unfold mbind, M_bind.
  destruct (Hm w Hw) as [H1 H2].
  destruct (m w) as [[a|e] w']; simpl in *; [|done].
  destruct (Hf a w' H1) as [H3 H4]. split; [done|congruence].
Qed.

Lemma punctual_try_catch body handler :
  punctual body → (∀ e, punctual (handler e)) →
  punctual (try_catch body handler).
Proof.
  intros Hm Hh w Hw. unfold try_catch.
  destruct (Hm w Hw) as [H1 H2].
  destruct (body w) as [[a|e] w']; simpl in *; [done|].
  destruct (Hh e w' H1) as [H3 H4]. split; [done|congruence].
Qed.

Lemma punctual_console_log msg : punctual (console_log msg).
Proof. by intros w H. Qed.

Lemma punctual_console_error msg : punctual (console_error msg).
Proof. by intros w H. Qed.

Lemma punctual_now : punctual now.
Proof. by intros w H. Qed.

Lemma punctual_refetch : punctual refetch.
Proof. by intros w H. Qed.

Lemma punctual_onNewMessage : punctual onNewMessage.
Proof. by intros w H. Qed.

Lemma punctual_agentFlow call : punctual (agentFlow call).
Proof.
  intros w H. unfold agentFlow. destruct (agentFlowRef w) as [p|]; [|done].
  by destruct (call p).
Qed.

Lemma punctual_setTimeout cb : punctual (setTimeout cb 2000).
Proof.
  intros w H. split; [|done]. unfold timely in *. simpl.
  apply Forall_enqueue; [simpl; lia|done].
Qed.

Lemma punctual_when b m : punctual m → punctual (when b m).
Proof. destruct b; [done|intros _; apply punctual_ret]. Qed.

#[export] Hint Resolve punctual_ret punctual_throw punctual_lift
  punctual_console_log punctual_console_error punctual_now punctual_refetch
  punctual_onNewMessage punctual_agentFlow punctual_setTimeout
  punctual_when : punctual.

Ltac punctual_step :=
  first
    [ apply punctual_bind; [|intros ?]
    | apply punctual_try_catch; [|intros ?]
    | match goal with
      | |- punctual (if ?b then _ else _) => destruct b
      | |- punctual (match ?x with _ => _ end) => destruct x
      end
    | solve [auto with punctual] ].

Lemma punctual_handleTraceUpdate trace chatData :
  punctual (handleTraceUpdate trace chatData).
Proof.
  unfold handleTraceUpdate, classify, respond.
  destruct (chatData ≫= bot); repeat first [apply punctual_when | punctual_step].
Qed.

Lemma fire_all_frame ts : ∀ w,
  timers (snd (fire_all ts w)) = timers w
  ∧ clock (snd (fire_all ts w)) = clock w.
Proof.
  induction ts as [|t ts IH]; intros w; [done|].
  simpl. unfold mbind, M_bind, fire, agentFlow.
  destruct (callback t) as [e].
  destruct (agentFlowRef w) as [p|]; [|apply IH].
  destruct (IH (with_ref
    (Some (syncEdges
       {| nodes := nodes p; edges := edges p;
          nodeDetailsMap := nodeDetailsMap p;
          edgeStats :=
            <[e := {| callCount :=
                        callCount (default bareStats
                                     (obj_get bareStats (edgeStats p) e));
                      isAnimated := Some false |}]> (edgeStats p) |})) w))
    as [H1 H2].
  done.
Qed.

Section RunTimely.

Variable JSON_parse : string → option json.

Lemma punctual_next d : punctual (next JSON_parse d).
Proof.
  unfold next, parse.
  repeat first [apply punctual_handleTraceUpdate | apply punctual_when
               | punctual_step].
Qed.

Lemma advance_timely dt w :
  timely w →
  timely (snd (advance dt w))
  ∧ clock (snd (advance dt w)) = clock w + dt
  ∧ (2000 ≤ dt → timers (snd (advance dt w)) = []).
Proof.
  intros Hw. unfold advance.
  match goal with |- context [fire_all ?ts ?w0] =>
    destruct (fire_all_frame ts w0) as [Ht Hc] end.
  simpl in Ht, Hc. unfold timely in *. rewrite Ht, Hc.
  split; [|split; [done|]].
  - rewrite Forall_forall in Hw |- *.
    intros t [Hlate Hin]%list_elem_of_filter.
    specialize (Hw t Hin). lia.
  - intros Hdt. apply elem_of_nil_inv. intros t [Hlate Hin]%list_elem_of_filter.
    rewrite Forall_forall in Hw. specialize (Hw t Hin). lia.
Qed.

Lemma run_timely ss : ∀ w, timely w → timely (run JSON_parse ss w).
Proof.
  induction ss as [|s ss IH]; intros w Hw; [done|].
  simpl. apply IH. destruct s as [d|dt]; simpl.
  - by apply punctual_next.
  - by apply advance_timely.
Qed.

(** X5.  Timers are set 2000 ms ahead and never re-armed: if every pending
    timer is due within the next 2000 ms, that stays so over any run, and
    2000 ms without a delivered event leave no timer pending. *)
Theorem timers_within_two_seconds ss w :
  timely w →
  timely (run JSON_parse ss w)
  ∧ timers (run JSON_parse (ss ++ [Advance 2000]) w) = [].
Proof.
  intros Hw. pose proof (run_timely ss w Hw) as H. split; [done|].
  assert (Happ : ∀ l w0, run JSON_parse (l ++ [Advance 2000]) w0
                         = snd (advance 2000 (run JSON_parse l w0))).
  { induction l as [|s l IH]; intros w0; [done|]. simpl. apply IH. }
  rewrite Happ. by apply advance_timely.
Qed.

End RunTimely.

Lemma timers_within_two_seconds_witness :
  timers (run sample_parse
              ([Deliver (Some first_hop_event); Advance 1500;
                Deliver (Some approved_with_payload)] ++ [Advance 2000])
              initialWorld) = [].
Proof.
  apply (timers_within_two_seconds sample_parse
           [Deliver (Some first_hop_event); Advance 1500;
            Deliver (Some approved_with_payload)] initialWorld).
  by_compute.
Defined.

(** ** Pending timers and new traces *)

Lemma handleTraceUpdate_attached trace chatData w p :
  agentFlowRef w = Some p → good w →
  ∃ w' p', handleTraceUpdate trace chatData w = (Ok (), w')
    ∧ agentFlowRef w' = Some p' ∧ good w' ∧ clock w' = clock w
    ∧ ∀ t, t ∈ timers w → t ∈ timers w'.
Proof.
  intros Hr Hg.
  assert (Hmain : wp (handleTraceUpdate trace chatData) (λ _ w', ∃ p',
    agentFlowRef w' = Some p' ∧ good w' ∧ clock w' = clock w
    ∧ ∀ t, t ∈ timers w → t ∈ timers w') w).
  { unfold handleTraceUpdate.
    apply wp_bind, wp_console_log, wp_bind, wp_now. simpl. apply wp_bind.
    eapply wp_mono; [eapply (classify_spec _ _ _ p); [exact Hr|]|].
    { destruct Hg. by split. }
    intros _ w1 (p1 & Hr1 & Hg1 & Hc1 & _ & _ & Hkeep).
    eapply wp_mono; [eapply (respond_spec _ _ p1);
                     [done|by apply (good_attached w1)]|].
    intros _ w2 (p2 & Hr2 & Hwf2 & Hc2 & _ & _ & _ & _ & Hresp).
    exists p2. simpl in Hc1, Hkeep. split; [done|].
    pose proof (good_timers _ Hg1) as Hts.
    assert (Htimers : Forall timer_ok (timers w2)
                      ∧ ∀ t, t ∈ timers w1 → t ∈ timers w2).
    { destruct (chatData ≫= bot) as [reply|];
        [destruct (truthy_str (Some reply))|];
        destruct Hresp as [_ ->]; try done.
      split; [|intros t; apply enqueue_keeps].
      apply Forall_enqueue; [|done]. unfold timer_ok. simpl. in_list. }
    destruct Htimers as [Hok Hsub].
    split; [split; [by rewrite Hr2|done]|].
    split; [congruence|]. intros t Ht. by apply Hsub, Hkeep. }
  destruct (wp_returns _ _ _ Hmain) as ([] & w' & Hrun & p' & H).
  by exists w', p'.
Qed.

(** X6.  A pending timer is never cancelled or re-armed by a later trace:
    whatever trace is processed in between, once the time of a pending
    clear has come the edge it names is no longer animated, even when the
    trace had just animated that edge again. *)
Theorem pending_clear_not_postponed trace chatData w p t e dt :
  agentFlowRef w = Some p → good w →
  t ∈ timers w → callback t = ClearEdgeAnimation e →
  due t ≤ clock w + dt →
  ∃ w1 w2 p2,
    handleTraceUpdate trace chatData w = (Ok (), w1)
    ∧ advance dt w1 = (Ok (), w2)
    ∧ agentFlowRef w2 = Some p2
    ∧ stats_animated p2 e = Some false
    ∧ shown_animated p2 e = [false].
Proof.
  intros Hr Hg Ht Hcb Hdue.
  destruct (handleTraceUpdate_attached trace chatData w p Hr Hg)
    as (w1 & p1 & Hrun & Hr1 & Hg1 & Hc1 & Hkeep).
  destruct (advance_returns dt w1 p1 t e Hr1 Hg1 (Hkeep t Ht) Hcb)
    as (w2 & p2 & Hadv & Hr2 & Ha & Hs); [by rewrite Hc1|].
  by exists w1, w2, p2.
Qed.

Lemma pending_clear_not_postponed_witness :
  ∃ w1 w2 p2,
    handleTraceUpdate trace_first_hop None world_mid_animation = (Ok (), w1)
    ∧ advance 500 w1 = (Ok (), w2)
    ∧ agentFlowRef w2 = Some p2
    ∧ shown_animated p2 "e-user-supervisor" = [false].
Proof.
  destruct (pending_clear_not_postponed trace_first_hop None
              world_mid_animation
              (default initialPanel (agentFlowRef world_mid_animation))
              {| due := 2000;
                 callback := ClearEdgeAnimation "e-user-supervisor" |}
              "e-user-supervisor" 500)
    as (w1 & w2 & p2 & H1 & H2 & H3 & _ & H4);
    [by vm_compute|by_compute|vm_compute; apply list_elem_of_here
    |reflexivity|vm_compute; lia|].
  exists w1, w2, p2. repeat split; assumption.
Defined.

(** ** Work in progress *)

Lemma fire_all_untouched e ts : ∀ w p,
  agentFlowRef w = Some p →
  Forall (λ t, callback t ≠ ClearEdgeAnimation e) ts →
  ∃ p', agentFlowRef (snd (fire_all ts w)) = Some p'
    ∧ stats_animated p' e = stats_animated p e.
Proof.
  induction ts as [|t ts IH]; intros w p Hr Hts; [by exists p|].
  apply Forall_cons in Hts as [Ht Hts].
  simpl. unfold mbind, M_bind, fire. destruct (callback t) as [e0] eqn:Hcb.
  destruct (updateEdgeAnimation_total e0 false p)
    as (p1 & Hcall & _ & _ & _ & _ & Hother).
  unfold agentFlow. rewrite Hr, Hcall.
  destruct (IH (with_ref (Some p1) w) p1 eq_refl Hts) as (p' & Hr' & Ha).
  exists p'. split; [done|]. rewrite Ha. unfold stats_animated.
  rewrite Hother; [done|]. intros ->. by apply Ht.
Qed.

Section WorkInProgress.

Variable JSON_parse : string → option json.

Lemma idle_keeps_animation e dts : ∀ w p,
  agentFlowRef w = Some p →
  Forall (λ t, callback t ≠ ClearEdgeAnimation e) (timers w) →
  ∃ p', agentFlowRef (run JSON_parse (map Advance dts) w) = Some p'
    ∧ stats_animated p' e = stats_animated p e.
Proof.
  induction dts as [|dt dts IH]; intros w p Hr Hts; [by exists p|].
  simpl. unfold advance.
  match goal with |- context [fire_all ?ts ?w0] =>
    destruct (fire_all_untouched e ts w0 p Hr) as (p1 & Hr1 & Ha1);
    [|destruct (fire_all_frame ts w0) as [Htm _];
      destruct (IH (snd (fire_all ts w0)) p1 Hr1) as (p' & Hr' & Ha')]
  end.
  - rewrite Forall_forall in Hts |- *.
    intros t [_ Hin]%list_elem_of_filter. auto.
  - rewrite Htm. simpl. rewrite Forall_forall in Hts |- *.
    intros t [_ Hin]%list_elem_of_filter. auto.
  - exists p'. split; [done|congruence].
Qed.

(** X7.  After the first hop of a request with no bot reply yet, the
    supervisor→response edge stays animated however much time passes: no
    timer is set to clear it. *)
Theorem response_edge_stays_animated trace chatData w p dts :
  agentFlowRef w = Some p → good w →
  trace_action trace = Some (JStr "modelInvocationInput") →
  truthy (trace_collaborator trace) = false →
  truthy_str (chatData ≫= bot) = false →
  Forall (λ t, callback t ≠ ClearEdgeAnimation "e-supervisor-response")
         (timers w) →
  ∃ w1 p',
    handleTraceUpdate trace chatData w = (Ok (), w1)
    ∧ agentFlowRef (run JSON_parse (map Advance dts) w1) = Some p'
    ∧ stats_animated p' "e-supervisor-response" = Some true.
Proof.
  intros Hr Hg Ha Hc Hbot Hts.
  pose proof (good_attached w p Hr Hg) as Hwf.
  assert (Hmain : wp (handleTraceUpdate trace chatData) (λ _ w1, ∃ p1,
    agentFlowRef w1 = Some p1
    ∧ stats_animated p1 "e-supervisor-response" = Some true
    ∧ Forall (λ t, callback t ≠ ClearEdgeAnimation "e-supervisor-response")
             (timers w1)) w).
  { unfold handleTraceUpdate.
    apply wp_bind, wp_console_log, wp_bind, wp_now. simpl.
    apply wp_bind. unfold classify. rewrite Ha, Hc. simpl.
    apply wp_bind, wp_console_log, wp_bind.
    eapply step_trace; [exact Hr|done|in_list|].
    intros p1 Hwf1 N1 E1 S1 T1 D1.
    apply wp_bind. eapply step_animate; [reflexivity|done|in_list|].
    intros s2 p2 L2 Hwf2 N2 E2 D2 S2.
    apply wp_bind. eapply step_animate; [reflexivity|done|in_list|].
    intros s3 p3 L3 Hwf3 N3 E3 D3 S3.
    apply wp_setTimeout. unfold wp. rewrite respond_silent by done.
    exists p3. split; [done|]. split.
    - unfold stats_animated. by rewrite S3, lookup_insert_eq.
    - simpl. by apply Forall_enqueue. }
  destruct (wp_returns _ _ _ Hmain) as ([] & w1 & Hrun & p1 & Hr1 & Ha1 & Ht1).
  destruct (idle_keeps_animation "e-supervisor-response" dts w1 p1 Hr1 Ht1)
    as (p' & Hr' & Ha').
  exists w1, p'. split; [done|]. split; [done|congruence].
Qed.

End WorkInProgress.

Lemma response_edge_stays_animated_witness :
  ∃ w1 p',
    handleTraceUpdate trace_first_hop None initialWorld = (Ok (), w1)
    ∧ agentFlowRef (run sample_parse (map Advance [2000; 3000; 1]) w1)
      = Some p'
    ∧ stats_animated p' "e-supervisor-response" = Some true.
Proof.
  apply (response_edge_stays_animated sample_parse trace_first_hop None
           initialWorld initialPanel [2000; 3000; 1]);
    [reflexivity|by_compute|reflexivity|reflexivity|reflexivity
    |vm_compute; constructor].
Defined.

(** ** How calls of the handle compose *)

Lemma obj_get_insert {V} (bare : V) (o : gmap string V) k v :
  obj_get bare (<[k := v]> o) k = Some v.
Proof. unfold obj_get. by rewrite lookup_insert_eq. Qed.

Lemma obj_get_insert_ne {V} (bare : V) (o : gmap string V) k k' v :
  k ≠ k' → obj_get bare (<[k := v]> o) k' = obj_get bare o k'.
Proof. intros H. unfold obj_get. by rewrite lookup_insert_ne. Qed.

Lemma panel_eq p q :
  nodes p = nodes q → edges p = edges q →
  nodeDetailsMap p = nodeDetailsMap q → edgeStats p = edgeStats q → p = q.
Proof. destruct p, q. simpl. by intros -> -> -> ->. Qed.

(** X8.  For the animation flag the last write wins: setting the flag of
    an edge twice is the same as setting it once to the second value; and
    the flags of two different edges can be set in either order. *)
Theorem animation_last_write_wins p e b b' e2 b2 :
  (∃ p1, updateEdgeAnimation e b' p = Ok p1
     ∧ updateEdgeAnimation e b p1 = updateEdgeAnimation e b p)
  ∧ (e ≠ e2 →
     ∃ p1 p2 p', updateEdgeAnimation e b p = Ok p1
       ∧ updateEdgeAnimation e2 b2 p1 = Ok p'
       ∧ updateEdgeAnimation e2 b2 p = Ok p2
       ∧ updateEdgeAnimation e b p2 = Ok p').
Proof.
  split.
  - eexists. split; [reflexivity|].
    unfold updateEdgeAnimation, setEdgeStats. simpl. f_equal.
    rewrite obj_get_insert. simpl. rewrite insert_insert_eq.
    apply panel_eq; simpl; try done. by rewrite sync_twice.
  - intros Hne. do 3 eexists. split; [reflexivity|].
    split; [reflexivity|]. split; [reflexivity|].
    unfold updateEdgeAnimation, setEdgeStats. simpl. f_equal.
    rewrite !obj_get_insert_ne by done.
    apply panel_eq; simpl; try done.
    + rewrite !sync_twice. f_equal. f_equal. by apply insert_insert_ne.
    + by apply insert_insert_ne.
Qed.

Lemma animation_last_write_wins_witness :
  ∃ p1 p2 p', updateEdgeAnimation "e-user-supervisor" true initialPanel = Ok p1
    ∧ updateEdgeAnimation "e-supervisor-response" true p1 = Ok p'
    ∧ updateEdgeAnimation "e-supervisor-response" true initialPanel = Ok p2
    ∧ updateEdgeAnimation "e-user-supervisor" true p2 = Ok p'.
Proof.
  destruct (animation_last_write_wins initialPanel "e-user-supervisor" true
              false "e-supervisor-response" true) as [_ H].
  apply H. discriminate.
Defined.

(** X9.  On an edge whose identifier resolves to an entry, counting a call
    and setting the animation flag commute: the classifier's order
    (count, then animate) gives the panel the other order would. *)
Theorem count_and_animation_commute p e b :
  is_Some (obj_get bareStats (edgeStats p) e) →
  ∃ p1 p2 p', incrementEdgeCount e p = Ok p1
    ∧ updateEdgeAnimation e b p1 = Ok p'
    ∧ updateEdgeAnimation e b p = Ok p2
    ∧ incrementEdgeCount e p2 = Ok p'.
Proof.
  intros [old Hold]. do 3 eexists.
  split; [unfold incrementEdgeCount, setEdgeStats; rewrite Hold; reflexivity|].
  split; [reflexivity|]. split; [reflexivity|].
  unfold incrementEdgeCount, updateEdgeAnimation, setEdgeStats. simpl.
  rewrite !obj_get_insert, Hold. simpl. f_equal.
  apply panel_eq; simpl; try done.
  - rewrite !sync_twice. by rewrite !insert_insert_eq.
  - by rewrite !insert_insert_eq.
Qed.

Lemma count_and_animation_commute_witness :
  ∃ p1 p2 p', incrementEdgeCount "e-supervisor-broker" initialPanel = Ok p1
    ∧ updateEdgeAnimation "e-supervisor-broker" true p1 = Ok p'
    ∧ updateEdgeAnimation "e-supervisor-broker" true initialPanel = Ok p2
    ∧ incrementEdgeCount "e-supervisor-broker" p2 = Ok p'.
Proof.
  apply (count_and_animation_commute initialPanel "e-supervisor-broker" true).
  vm_compute. eexists. reflexivity.
Defined.

Lemma merge_flags_then d s1 s2 :
  merge_flags (merge_flags d s1) s2 = merge_flags d (flags_then s1 s2).
Proof.
  unfold merge_flags, flags_then. simpl.
  by destruct (set_isProcessing s2), (set_processingComplete s2).
Qed.

(** X10.  [updateNodeState] merges: two calls on a node are one call with
    the second call's flags laid over the first's; a call touches nothing
    but the flags of the nodes carrying the identifier: labels, colours,
    identifiers, the order of the nodes, edges, statistics and details stay. *)
Theorem updateNodeState_merges p i s1 s2 :
  ∃ p1 p2, updateNodeState i s1 p = Ok p1
    ∧ updateNodeState i s2 p1 = Ok p2
    ∧ updateNodeState i (flags_then s1 s2) p = Ok p2
    ∧ map (λ n, (node_id n, label (data n), borderColor (data n))) (nodes p2)
      = map (λ n, (node_id n, label (data n), borderColor (data n))) (nodes p)
    ∧ filter (λ n, node_id n ≠ i) (nodes p2)
      = filter (λ n, node_id n ≠ i) (nodes p)
    ∧ edges p2 = edges p ∧ edgeStats p2 = edgeStats p
    ∧ nodeDetailsMap p2 = nodeDetailsMap p.
Proof.
  do 2 eexists. split; [reflexivity|]. split; [reflexivity|].
  unfold updateNodeState, setNodes. simpl.
  assert (Hnodes :
    map (λ node, if String.eqb (node_id node) i
                 then {| node_id := node_id node;
                         data := merge_flags (data node) s2 |}
                 else node)
      (map (λ node, if String.eqb (node_id node) i
                    then {| node_id := node_id node;
                            data := merge_flags (data node) s1 |}
                    else node) (nodes p))
    = map (λ node, if String.eqb (node_id node) i
                   then {| node_id := node_id node;
                           data := merge_flags (data node) (flags_then s1 s2) |}
                   else node) (nodes p)).
  { rewrite map_map. apply map_ext. intros n.
    destruct (String.eqb (node_id n) i) eqn:E; simpl; rewrite E; [|done].
    by rewrite merge_flags_then. }
  split; [by rewrite Hnodes|]. rewrite Hnodes.
  split; [|split; [|done]].
  - rewrite map_map. apply map_ext. intros n.
    by destruct (String.eqb (node_id n) i).
  - clear Hnodes. induction (nodes p) as [|n l IH]; [done|].
    simpl. rewrite !filter_cons, IH.
    destruct (String.eqb (node_id n) i) eqn:E; simpl.
    + apply String.eqb_eq in E.
      destruct (decide (node_id n ≠ i)); [done|done].
    + done.
Qed.

Lemma updateEdgeAnimation_entry i b p s :
  edgeStats p !! i = Some s →
  ∃ p', updateEdgeAnimation i b p = Ok p'
    ∧ edgeStats p' !! i
      = Some {| callCount := callCount s; isAnimated := Some b |}.
Proof.
  intros Hs. eexists. split; [reflexivity|]. simpl.
  by rewrite lookup_insert_eq, (obj_get_own _ _ _ _ Hs).
Qed.

Lemma incrementEdgeCount_entry i p s :
  edgeStats p !! i = Some s →
  ∃ p', incrementEdgeCount i p = Ok p'
    ∧ edgeStats p' !! i
      = Some {| callCount := Some (plus_one (callCount s));
                isAnimated := isAnimated s |}.
Proof.
  intros Hs. unfold incrementEdgeCount, setEdgeStats.
  rewrite (obj_get_own _ _ _ _ Hs). eexists. split; [reflexivity|].
  simpl. by rewrite lookup_insert_eq.
Qed.

Lemma edge_calls_without_count i cs : ∀ p s c0 a,
  edgeStats p !! i = Some s →
  callCount s = c0 → (c0 = None ∨ c0 = Some NaN) →
  isAnimated s = Some a →
  ∃ p', invoke_all (edge_call i <$> cs) p = Ok p'
    ∧ stats_calls p' i
      = (if bool_decide (CountCall ∈ cs) then Some NaN else c0)
    ∧ stats_animated p' i = Some (last_flag a cs).
Proof.
  induction cs as [|c cs IH]; intros p s c0 a Hs Hc Hnan Ha.
  - exists p. split; [done|]. unfold stats_calls, stats_animated.
    rewrite Hs. simpl. by rewrite Hc, Ha.
  - rewrite fmap_cons. cbn [invoke_all].
    destruct c as [flag|]; cbn [edge_call invoke last_flag].
    + destruct (updateEdgeAnimation_entry i flag p s Hs) as (q & -> & Hq).
      destruct (IH q _ c0 flag Hq Hc Hnan eq_refl) as (p' & H1 & H2 & H3).
      exists p'. split; [done|]. split; [|done].
      rewrite H2. apply (f_equal (λ b : bool, if b then Some NaN else c0)).
      apply bool_decide_ext. rewrite elem_of_cons.
      split; [by right|by intros [?|?]].
    + destruct (incrementEdgeCount_entry i p s Hs) as (q & -> & Hq).
      assert (Hq' : plus_one (callCount s) = NaN)
        by (rewrite Hc; by destruct Hnan as [->| ->]).
      rewrite Hq' in Hq.
      destruct (IH q _ (Some NaN) a Hq eq_refl (or_intror eq_refl) Ha)
        as (p' & H1 & H2 & H3).
      exists p'. split; [done|]. split; [|done].
      rewrite H2.
      rewrite (bool_decide_eq_true_2 (CountCall ∈ CountCall :: cs))
        by apply list_elem_of_here.
      by case_bool_decide.
Qed.

Lemma updateEdgeAnimation_fresh i b p :
  edgeStats p !! i = None →
  ∃ p', updateEdgeAnimation i b p = Ok p'
    ∧ edgeStats p' !! i
      = Some {| callCount := None; isAnimated := Some b |}.
Proof.
  intros Hnone. eexists. split; [reflexivity|]. simpl.
  by rewrite lookup_insert_eq, (obj_get_fresh _ _ _ Hnone).
Qed.

(** X11.  An identifier with no entry: once [updateEdgeAnimation] has
    filed a flag under it, no [incrementEdgeCount] and no
    [updateEdgeAnimation] on it raises, however many follow and in whatever
    order; its count is absent until the first [incrementEdgeCount] and
    NaN from then on, never a number; its label would be empty throughout;
    and its flag is the last one set. *)
Theorem count_after_unknown_animation p i b :
  edgeStats p !! i = None →
  ∃ p1, updateEdgeAnimation i b p = Ok p1
    ∧ stats_calls p1 i = None
    ∧ ∀ cs, ∃ p', invoke_all (edge_call i <$> cs) p1 = Ok p'
        ∧ stats_calls p' i
          = (if bool_decide (CountCall ∈ cs) then Some NaN else None)
        ∧ calls_label (stats_calls p' i) = EmptyString
        ∧ stats_animated p' i = Some (last_flag b cs).
Proof.
  intros Hnone.
  destruct (updateEdgeAnimation_fresh i b p Hnone) as (p1 & Hp1 & Hs).
  exists p1. split; [done|]. split.
  { unfold stats_calls. by rewrite Hs. }
  intros cs.
  destruct (edge_calls_without_count i cs _ _ None b Hs eq_refl
              (or_introl eq_refl) eq_refl) as (p' & H1 & H2 & H3).
  exists p'. split; [done|]. split; [done|]. split; [|done].
  rewrite H2. by case_bool_decide.
Qed.

Lemma count_after_unknown_animation_witness :
  ∃ p1 p', updateEdgeAnimation "e-broker-response" true initialPanel = Ok p1
    ∧ invoke_all (edge_call "e-broker-response"
                    <$> [CountCall; SetAnimated false; CountCall; CountCall])
        p1 = Ok p'
    ∧ stats_calls p' "e-broker-response" = Some NaN.
Proof.
  destruct (count_after_unknown_animation initialPanel "e-broker-response"
              true) as (p1 & H1 & _ & H2); [by vm_compute|].
  destruct (H2 [CountCall; SetAnimated false; CountCall; CountCall])
    as (p' & H3 & H4 & _).
  exists p1, p'. split; [exact H1|]. split; [exact H3|exact H4].
Defined.

(** ** File names *)

Lemma split_dot_nonempty s : split_dot s ≠ [].
Proof.
  destruct s as [|c r]; simpl; [done|].
  destruct (Ascii.eqb c "."); [done|]. by destruct (split_dot r).
Qed.

Lemma split_dot_append a b :
  split_dot (a +:+ String "." b) = split_dot a ++ split_dot b.
Proof.
  induction a as [|c a IH]; simpl; [done|].
  destruct (Ascii.eqb c "."); [by rewrite IH|].
  rewrite IH. pose proof (split_dot_nonempty a) as Hne.
  by destruct (split_dot a).
Qed.

Lemma split_dot_dot_free s : dot_free s = true → split_dot s = [s].
Proof.
  induction s as [|c s IH]; simpl; [done|].
  intros [Hc Hs]%andb_true_iff. apply negb_true_iff in Hc. rewrite Hc.
  by rewrite IH.
Qed.

Lemma toLowerCase_append a b :
  toLowerCase (a +:+ b) = toLowerCase a +:+ toLowerCase b.
Proof. induction a as [|c a IH]; simpl; [done|]. by rewrite IH. Qed.

Lemma lower_dot c : Ascii.eqb (lower c) "." = Ascii.eqb c ".".
Proof. destruct c as [[] [] [] [] [] [] [] []]; reflexivity. Qed.

Lemma dot_free_toLowerCase s : dot_free (toLowerCase s) = dot_free s.
Proof. induction s as [|c s IH]; simpl; [done|]. by rewrite lower_dot, IH. Qed.

Lemma last_app_nonempty {A} (l1 l2 : list A) :
  l2 ≠ [] → last (l1 ++ l2) = last l2.
Proof.
  intros H. destruct l2 as [|x l2 _] using rev_ind; [done|].
  by rewrite app_assoc, !last_snoc.
Qed.

(** X12.  Only the text after the last dot decides the file type, without
    regard to case; a name with no dot at all is taken whole as its own
    extension (a file called "PDF" is a PDF). *)
Theorem getFileType_last_extension name ext :
  dot_free ext = true →
  getFileType (name +:+ "." +:+ ext) = getFileType ext
  ∧ (getFileType ext = pdf ↔ toLowerCase ext = "pdf")
  ∧ (getFileType ext = image
     ↔ toLowerCase ext ∈ ["png"; "jpg"; "jpeg"; "gif"]).
Proof.
  intros Hext.
  assert (Hpop : pop (split_dot (toLowerCase ext)) = Some (toLowerCase ext)).
  { rewrite split_dot_dot_free; [done|]. by rewrite dot_free_toLowerCase. }
  split; [|split].
  - unfold getFileType. rewrite toLowerCase_append. simpl.
    change (String (lower ".") (toLowerCase ext))
      with (String "." (toLowerCase ext)).
    rewrite split_dot_append. unfold pop.
    rewrite last_app_nonempty by apply split_dot_nonempty. done.
  - unfold getFileType. rewrite Hpop. case_bool_decide as H1.
    + injection H1 as H1. by split.
    + split; [by case_bool_decide|]. intros H. by rewrite H in H1.
  - unfold getFileType. rewrite Hpop. simpl. case_bool_decide as H1.
    + injection H1 as H1. split; [done|]. rewrite H1.
      rewrite !elem_of_cons, elem_of_nil. intros [|[|[|[|[]]]]]; discriminate.
    + case_bool_decide as H2; [by split|]. by split.
Qed.

Lemma getFileType_last_extension_witness :
  getFileType ("scan.final" +:+ "." +:+ "JPeG") = getFileType "JPeG".
Proof.
  destruct (getFileType_last_extension "scan.final" "JPeG") as [H _];
    [reflexivity|exact H].
Defined.

(** ** Reply bubbles *)

Lemma aiBubbles_lookup isAI chats i :
  aiBubbles isAI chats !! i
  = aiBubble isAI (length (groupedMessages chats)) i
    <$> groupedMessages chats !! i.
Proof. unfold aiBubbles. apply list_lookup_imap. Qed.

(** X13.  Among the displayed turns only the last can show the
    "Generating response..." spinner, and only while the responding flag is
    set and the turn has no reply; a turn with a reply always shows that
    reply, split into paragraphs; any other turn shows no reply bubble. *)
Theorem spinner_only_on_last_turn isAI chats i g :
  groupedMessages chats !! i = Some g →
  (aiBubbles isAI chats !! i = Some (Some Generating)
   ↔ isAI = true ∧ S i = length (groupedMessages chats)
     ∧ truthy_str (gm_bot g) = false)
  ∧ (truthy_str (gm_bot g) = true →
     aiBubbles isAI chats !! i
     = Some (Some (Paragraphs (paragraphs_of <$> gm_bot g))))
  ∧ (truthy_str (gm_bot g) = false →
     (isAI = false ∨ S i ≠ length (groupedMessages chats)) →
     aiBubbles isAI chats !! i = Some None).
Proof.
  intros Hg. rewrite aiBubbles_lookup, Hg. simpl. unfold aiBubble.
  destruct (truthy_str (gm_bot g)), isAI; simpl;
    try case_bool_decide; simpl;
    (split; [split; [intros Hx; try discriminate Hx; auto
                    |intros (H1 & H2 & H3); try discriminate; auto]
            |split; [intros Hx; try discriminate Hx; auto
                    |intros Hx [Hy|Hy]; try discriminate; auto]]);
    try done.
Qed.

Lemma spinner_only_on_last_turn_witness :
  aiBubbles true [approved_without_payload; turn_two] !! 0
  = Some (Some (Paragraphs (Some [[("Approved", false)]]))).
Proof.
  destruct (spinner_only_on_last_turn true
              [approved_without_payload; turn_two] 0
              (grouped approved_without_payload)) as (_ & H & _);
    [reflexivity|].
  apply H. reflexivity.
Defined.

Lemma groupedMessages_snoc chats c :
  truthy_str (human c) = true →
  groupedMessages (chats ++ [c]) = groupedMessages chats ++ [grouped c].
Proof.
  intros H. rewrite !groupedMessages_filter, filter_app, filter_cons.
  rewrite H. simpl. by rewrite map_app.
Qed.

Lemma last_snoc_inv {A} (l : list A) x :
  last l = Some x → ∃ l', l = l' ++ [x].
Proof.
  destruct l as [|y l _] using rev_ind; [done|].
  rewrite last_snoc. intros [= ->]. by exists l.
Qed.

(** X14.  The responding effect and the bubbles together: when the latest
    turn has a human text and no reply, the flag is raised, the scroll
    signal is sent 100 ms later and the last displayed turn shows the
    spinner; when it has a reply, the flag is lowered, the signal is sent at
    once and no turn shows the spinner; when it has neither, the flag is
    left as it was and no signal is sent. *)
Theorem responding_effect_and_spinner chats isAI c :
  last chats = Some c →
  (truthy_str (human c) = true → truthy_str (bot c) = false →
     respondingEffect (Some chats) isAI = (true, [SignalAfter 100])
     ∧ ∃ i, S i = length (groupedMessages chats)
         ∧ aiBubbles true chats !! i = Some (Some Generating))
  ∧ (truthy_str (bot c) = true →
     respondingEffect (Some chats) isAI = (false, [SignalNow])
     ∧ ∀ i, aiBubbles false chats !! i ≠ Some (Some Generating))
  ∧ (truthy_str (human c) = false → truthy_str (bot c) = false →
     respondingEffect (Some chats) isAI = (isAI, [])).
Proof.
  intros Hlast. unfold respondingEffect. simpl. rewrite Hlast.
  split; [|split].
  - intros Hh Hb. rewrite Hh, Hb. simpl. split; [done|].
    destruct (last_snoc_inv chats c Hlast) as [l ->].
    exists (length (groupedMessages l)).
    rewrite aiBubbles_lookup, groupedMessages_snoc by done.
    rewrite length_app, list_lookup_middle by done. simpl.
    split; [lia|]. unfold aiBubble. simpl. rewrite Hb. simpl.
    case_bool_decide; [done|lia].
  - intros Hb. rewrite Hb. rewrite andb_false_r. split; [done|].
    intros i. rewrite aiBubbles_lookup.
    destruct (groupedMessages chats !! i) as [g|]; [|done]. simpl.
    unfold aiBubble. simpl. rewrite orb_false_r.
    by destruct (truthy_str (gm_bot g)).
  - intros Hh Hb. by rewrite Hh, Hb.
Qed.

Lemma responding_effect_and_spinner_witness :
  respondingEffect (Some [approved_without_payload; turn_two]) false
  = (true, [SignalAfter 100]).
Proof.
  destruct (responding_effect_and_spinner
              [approved_without_payload; turn_two] false turn_two)
    as ([H _] & _); [reflexivity|reflexivity|reflexivity|exact H].
Defined.

(** ** Reply text *)

Lemma split_char_nonempty sep s : split_char sep s ≠ [].
Proof.
  destruct s as [|c r]; simpl; [done|].
  destruct (Ascii.eqb c sep); [done|]. by destruct (split_char sep r).
Qed.

Lemma lines_of_flagged paragraph :
  lines_of paragraph = flagged (split_char nl paragraph).
Proof.
  unfold lines_of. generalize (split_char nl paragraph). intros l.
  assert (H : ∀ k (l : list string),
    imap (λ i line, (line, bool_decide (S (k + i) < k + length l))) l
    = flagged l).
  { clear l. intros k l. revert k.
    induction l as [|x l IH]; intros k; [done|].
    simpl. destruct l as [|y l].
    - simpl. f_equal. f_equal. case_bool_decide; [lia|done].
    - f_equal; [f_equal; case_bool_decide; [done|simpl in *; lia]|].
      rewrite <- (IH (S k)). apply imap_ext. intros i z _. simpl.
      f_equal. apply bool_decide_ext. lia. }
  apply (H 0).
Qed.

Lemma append_String c a b : String c a +:+ b = String c (a +:+ b).
Proof. reflexivity. Qed.

Lemma text_of_flagged_split s : text_of_lines (flagged (split_char nl s)) = s.
Proof.
  induction s as [|c s IH]; [done|]. simpl.
  destruct (Ascii.eqb c nl) eqn:E.
  - apply Ascii.eqb_eq in E. subst c.
    pose proof (split_char_nonempty nl s) as Hne.
    destruct (split_char nl s) as [|h t]; [done|].
    simpl in *. by rewrite IH.
  - pose proof (split_char_nonempty nl s) as Hne.
    destruct (split_char nl s) as [|h t]; [done|].
    destruct t as [|h' t]; simpl in *; by rewrite append_String, IH.
Qed.

Lemma split_blank_cons c c' r :
  split_blank (String c (String c' r))
  = if Ascii.eqb c nl && Ascii.eqb c' nl then EmptyString :: split_blank r
    else match split_blank (String c' r) with
         | h :: t => String c h :: t
         | [] => [ String c EmptyString ]
         end.
Proof. reflexivity. Qed.

Lemma split_blank_nonempty s : split_blank s ≠ [].
Proof.
  destruct s as [|c [|c' r]]; [done|done|]. rewrite split_blank_cons.
  destruct (Ascii.eqb c nl && Ascii.eqb c' nl); [done|].
  by destruct (split_blank (String c' r)).
Qed.

Lemma join_cons sep x l :
  l ≠ [] → join sep (x :: l) = x +:+ sep +:+ join sep l.
Proof. by destruct l. Qed.

Lemma join_split_blank s : join blank (split_blank s) = s.
Proof.
  assert (H : ∀ n s, String.length s ≤ n → join blank (split_blank s) = s).
  { clear s. induction n as [|n IH]; intros s Hn.
    - destruct s; [done|simpl in Hn; lia].
    - destruct s as [|c [|c' r]]; [done|done|].
      rewrite split_blank_cons. simpl in Hn.
      destruct (Ascii.eqb c nl && Ascii.eqb c' nl) eqn:E.
      + apply andb_true_iff in E as [E1 E2].
        apply Ascii.eqb_eq in E1, E2. subst c c'.
        rewrite join_cons by apply split_blank_nonempty.
        rewrite (IH r) by lia. done.
      + pose proof (IH (String c' r)) as Hr. simpl String.length in Hr.
        pose proof (split_blank_nonempty (String c' r)) as Hne.
        destruct (split_blank (String c' r)) as [|h t]; [done|].
        destruct t as [|h' t].
        * simpl join in *. rewrite Hr by lia. done.
        * rewrite join_cons by done. rewrite join_cons in Hr by done.
          rewrite append_String, Hr by lia. done. }
  by apply (H (String.length s)).
Qed.

Lemma split_char_free sep s :
  Forall (λ x, char_free sep x = true) (split_char sep s).
Proof.
  induction s as [|c s IH]; simpl; [by constructor|].
  destruct (Ascii.eqb c sep) eqn:E; [by constructor|].
  pose proof (split_char_nonempty sep s) as Hne.
  destruct (split_char sep s) as [|h t]; [done|].
  apply Forall_cons in IH as [Hh Ht]. constructor; [|done].
  simpl. by rewrite E, Hh.
Qed.

(** X15.  The reply is displayed without loss: putting a line break for
    every [<br />] and a blank line between paragraphs gives the bot text
    back; there is always at least one paragraph, and no displayed line
    contains a line break. *)
Theorem reply_text_round_trip reply :
  text_of_paragraphs (paragraphs_of reply) = reply
  ∧ paragraphs_of reply ≠ []
  ∧ Forall (Forall (λ l, char_free nl (fst l) = true)) (paragraphs_of reply).
Proof.
  split; [|split].
  - unfold text_of_paragraphs, paragraphs_of. rewrite map_map.
    rewrite (map_ext _ (λ x, x)); [by rewrite map_id, join_split_blank|].
    intros p. by rewrite lines_of_flagged, text_of_flagged_split.
  - unfold paragraphs_of. pose proof (split_blank_nonempty reply).
    by destruct (split_blank reply).
  - unfold paragraphs_of. rewrite Forall_map. apply Forall_forall.
    intros para _. unfold lines_of. apply Forall_forall.
    intros [line br] Hin. apply elem_of_lookup_imap in Hin
      as (i & x & [= -> ->] & Hx). simpl.
    pose proof (split_char_free nl para) as Hfree.
    rewrite Forall_forall in Hfree. apply Hfree.
    by apply list_elem_of_lookup_2 in Hx.
Qed.

(** ** The details modal *)

Lemma modal_selected_valid actions :
  ∀ m, (∀ n, selectedNode m = Some n → isValidNodeType n = true) →
       (isModalVisible m = true → is_Some (selectedNode m)) →
       (∀ n, selectedNode (fold_left modal_step actions m) = Some n →
             isValidNodeType n = true)
       ∧ (isModalVisible (fold_left modal_step actions m) = true →
          is_Some (selectedNode (fold_left modal_step actions m))).
Proof.
  induction actions as [|a actions IH]; intros m Hsel Hvis; [done|].
  simpl. apply IH.
  - destruct a as [n0|]; simpl; [|done]. unfold onNodeClick.
    destruct (isValidNodeType n0) eqn:E; [|done]. by intros n [= <-].
  - destruct a as [n0|]; simpl; [|done]. unfold onNodeClick.
    destruct (isValidNodeType n0) eqn:E; [|done]. by eexists.
Qed.

(** X16.  Whatever is clicked or dismissed and whatever events and timers
    have run since the initial panel: the modal is never visible without a
    selected node, the selected node is always one of the five valid ones,
    and the header shown for it is its title from the details map. *)
Theorem modal_header_is_node_title JSON_parse ss actions :
  ∃ p', agentFlowRef (run JSON_parse ss initialWorld) = Some p'
    ∧ (isModalVisible (fold_left modal_step actions initialModal) = true →
       is_Some (selectedNode (fold_left modal_step actions initialModal)))
    ∧ ∀ n, selectedNode (fold_left modal_step actions initialModal) = Some n →
        isValidNodeType n = true
        ∧ modalHeader p' (fold_left modal_step actions initialModal)
          = (loanNodeDetailsMap !! n) ≫= title
        ∧ is_Some (modalHeader p' (fold_left modal_step actions initialModal)).
Proof.
  destruct (run_attached JSON_parse ss initialWorld initialPanel eq_refl)
    as (p' & Hr' & _ & Hs & _).
  destruct (run_good JSON_parse ss initialWorld good_initialWorld)
    as [Hg' _].
  pose proof (good_attached _ p' Hr' Hg') as Hwf.
  destruct (modal_selected_valid actions initialModal) as [Hsel Hvis];
    [done|done|].
  exists p'. split; [done|]. split; [done|].
  intros n Hn. pose proof (Hsel n Hn) as Hvalid. split; [done|].
  apply isValidNodeType_nodeIds in Hvalid.
  destruct (wf_details_lookup p' n Hwf Hvalid) as [d Hd].
  assert (Htitle : obj_get bareDetails (nodeDetailsMap p') n ≫= title
                   = (loanNodeDetailsMap !! n) ≫= title).
  { rewrite (obj_get_own _ _ _ _ Hd).
    pose proof (Hs n) as Hstat. unfold node_static in Hstat.
    injection Hstat as Ht _ _. rewrite Hd in Ht. exact Ht. }
  unfold modalHeader. rewrite Hn. simpl.
  unfold nodeIds in Hvalid. simpl in Hvalid.
  rewrite !elem_of_cons, elem_of_nil in Hvalid.
  destruct Hvalid as [->|[->|[->|[->|[->|[]]]]]]; simpl;
    rewrite Htitle; (split; [done|by eexists]).
Qed.

Lemma modal_header_is_node_title_witness :
  ∃ p', agentFlowRef (run sample_parse sample_steps initialWorld) = Some p'
    ∧ modalHeader p'
        (fold_left modal_step [Click "broker"; Dismiss; Click "edge-1"]
                   initialModal)
      = Some "Broker Agent".
Proof.
  destruct (modal_header_is_node_title sample_parse sample_steps
              [Click "broker"; Dismiss; Click "edge-1"])
    as (p' & H1 & _ & H2).
  exists p'. split; [exact H1|].
  destruct (H2 "broker") as (_ & H3 & _); [reflexivity|exact H3].
Defined.

(** ** Re-subscribing *)

Section Resubscribe.

Variable JSON_parse : string → option json.

(** X17.  The subscription effect depends on the callbacks as well as on
    the user: a re-render in which only a callback's identity changed
    closes the subscription and opens a new one for the same user, while a
    re-render with unchanged dependencies leaves the subscription alone. *)
Theorem resubscribes_when_callbacks_change w0 es d i d' :
  mounted (lifecycle_run JSON_parse es (initialController w0)) = Some (d, i) →
  (lifecycle JSON_parse (Render d)
     (lifecycle_run JSON_parse es (initialController w0))
   = lifecycle_run JSON_parse es (initialController w0))
  ∧ (userID d' = userID d → callbacks d' ≠ callbacks d →
     ∃ c', c' = lifecycle JSON_parse (Render d')
                  (lifecycle_run JSON_parse es (initialController w0))
       ∧ closed <$> subscriptions c' !! i = Some true
       ∧ mounted c'
         = Some (d', length (subscriptions
                    (lifecycle_run JSON_parse es (initialController w0))))
       ∧ length (subscriptions c')
         = S (length (subscriptions
                (lifecycle_run JSON_parse es (initialController w0))))
       ∧ open_subscriptions c'
         = [length (subscriptions
              (lifecycle_run JSON_parse es (initialController w0)))]
       ∧ variables_userID <$> subscriptions c' !! length (subscriptions
              (lifecycle_run JSON_parse es (initialController w0)))
         = variables_userID <$> subscriptions
              (lifecycle_run JSON_parse es (initialController w0)) !! i).
Proof.
  set (c := lifecycle_run JSON_parse es (initialController w0)).
  intros Hm.
  assert (Ht : tidy c) by apply tidy_lifecycle_run, tidy_initial.
  split.
  { unfold lifecycle. rewrite Hm. by rewrite decide_True. }
  intros Huser Hcb. eexists. split; [reflexivity|].
  pose proof (tidy_lifecycle JSON_parse (Render d') c Ht) as Ht'.
  destruct Ht as [Hopen Hcur]. pose proof (Hcur d i Hm) as Hi.
  assert (Hlt : i < length (subscriptions c))
    by (by apply lookup_lt_Some in Hi).
  assert (Hc' : lifecycle JSON_parse (Render d') c
                = effect d' (cleanup i c)).
  { unfold lifecycle. rewrite Hm.
    destruct (decide (d' = d)) as [->|]; [done|done]. }
  rewrite Hc' in *.
  assert (Hm' : mounted (effect d' (cleanup i c))
                = Some (d', length (subscriptions c))).
  { unfold effect, setupSubscription, cleanup, log_line.
    simpl. by rewrite length_alter. }
  split.
  { unfold effect, setupSubscription, cleanup, log_line.
    simpl. rewrite lookup_app_l by (by rewrite length_alter).
    by rewrite list_lookup_alter_eq, Hi. }
  split; [done|]. split.
  { unfold effect, setupSubscription, cleanup, log_line. simpl.
    rewrite length_app, length_alter. simpl. lia. }
  split; [by rewrite (tidy_open_subscriptions _ Ht'), Hm'|].
  destruct Ht' as [_ Hcur'].
  rewrite (Hcur' d' _ Hm'), Hi. simpl. by rewrite Huser.
Qed.

End Resubscribe.

Lemma resubscribes_when_callbacks_change_witness :
  ∃ c', c' = lifecycle sample_parse (Render alice_again)
               (lifecycle_run sample_parse [Mount alice]
                  (initialController initialWorld))
    ∧ open_subscriptions c' = [1]
    ∧ variables_userID <$> subscriptions c' !! 1 = Some "alice".
Proof.
  destruct (resubscribes_when_callbacks_change sample_parse initialWorld
              [Mount alice] alice 0 alice_again) as [_ H]; [reflexivity|].
  destruct H as (c' & H1 & _ & _ & _ & H2 & H3);
    [reflexivity|discriminate|].
  exists c'. split; [exact H1|]. split; [exact H2|exact H3].
Defined.

(** ** Every event is signalled *)

Create HintDb silent.

Lemma silent_ret {A} (a : A) : silent (mret a).
Proof. by intros w. Qed.

Lemma silent_throw {A} e : silent (@throw A e).
Proof. by intros w. Qed.

Lemma silent_lift {A} (r : Result A) : silent (lift r).
Proof. destruct r; [apply silent_ret|apply silent_throw]. Qed.

Lemma silent_bind {A B} (m : M A) (f : A → M B) :
  silent m → (∀ a, silent (f a)) → silent (m ≫= f).
Proof.
  intros Hm Hf w. unfold mbind, M_bind. destruct (Hm w) as [H1 H2].
  destruct (m w) as [[a|e] w']; simpl in *; [|done].
  destruct (Hf a w') as [H3 H4]. split; congruence.
Qed.

Lemma silent_try_catch body handler :
  silent body → (∀ e, silent (handler e)) → silent (try_catch body handler).
Proof.
  intros Hm Hh w. unfold try_catch. destruct (Hm w) as [H1 H2].
  destruct (body w) as [[a|e] w']; simpl in *; [done|].
  destruct (Hh e w') as [H3 H4]. split; congruence.
Qed.

Lemma silent_console_log msg : silent (console_log msg).
Proof. by intros w. Qed.

Lemma silent_console_error msg : silent (console_error msg).
Proof. by intros w. Qed.

Lemma silent_now : silent now.
Proof. by intros w. Qed.

Lemma silent_setTimeout cb delay : silent (setTimeout cb delay).
Proof. by intros w. Qed.

Lemma silent_agentFlow call : silent (agentFlow call).
Proof.
  intros w. unfold agentFlow. destruct (agentFlowRef w) as [p|]; [|done].
  by destruct (call p).
Qed.

Lemma silent_when b m : silent m → silent (when b m).
Proof. destruct b; [done|intros _; apply silent_ret]. Qed.

#[export] Hint Resolve silent_ret silent_throw silent_lift silent_console_log
  silent_console_error silent_now silent_setTimeout silent_agentFlow
  silent_when : silent.

Ltac silent_step :=
  first
    [ apply silent_bind; [|intros ?]
    | apply silent_try_catch; [|intros ?]
    | match goal with
      | |- silent (if ?b then _ else _) => destruct b
      | |- silent (match ?x with _ => _ end) => destruct x
      end
    | solve [auto with silent] ].

Lemma silent_handleTraceUpdate trace chatData :
  silent (handleTraceUpdate trace chatData).
Proof.
  unfold handleTraceUpdate, classify, respond.
  destruct (chatData ≫= bot); repeat first [apply silent_when | silent_step].
Qed.

Section Signals.

Variable JSON_parse : string → option json.

Lemma next_signals d w :
  wp (next JSON_parse d) (λ _ w',
      refetches w' = S (refetches w)
      ∧ newMessages w' = S (newMessages w)) w.
Proof.
  unfold next. apply wp_bind, wp_console_log, wp_bind.
  destruct (d ≫= payload) as [p0|]; [|done].
  apply wp_when. destruct (truthy_str (Some p0)); [|done].
  apply wp_try_catch.
  match goal with
  | |- match ?b ?w0 with _ => _ end =>
      assert (Hs : silent b)
        by (unfold parse;
            repeat first [apply silent_handleTraceUpdate | silent_step]);
      destruct (Hs w0) as [H1 H2]; destruct (b w0) as [[[]|e] w1]
  end; simpl in *; unfold wp; simpl; split; congruence.
Qed.

(** X18.  While it handles one event the subscription handler calls
    [refetch] exactly once and [onNewMessage] exactly once, and it returns
    normally: whatever the event carries, whether or not the payload is
    JSON, and whatever is raised while the trace is processed. *)
Theorem every_event_signals d w :
  ∃ w', next JSON_parse d w = (Ok (), w')
    ∧ refetches w' = S (refetches w)
    ∧ newMessages w' = S (newMessages w).
Proof.
  destruct (wp_returns _ _ _ (next_signals d w)) as ([] & w' & Hw' & H).
  by exists w'.
Qed.

End Signals.

(** ** Events and traces that change nothing *)

Section Ignored.

Variable JSON_parse : string → option json.

(** X19.  Events the handler passes over without touching the panel or the
    timers: one with no payload or an empty one (nothing is parsed, nothing
    logged as an error, even when it carries a bot reply); one whose
    payload is the JSON text [null] (reading [.trace] of it raises, which is
    caught and logged); one whose payload has no trace while the event has
    no bot reply. *)
Theorem ignored_events d w :
  (truthy_str (d ≫= payload) = false →
     ∃ w', next JSON_parse d w = (Ok (), w') ∧ view w' = view w
       ∧ console w' = console w ++ [Log "New chat message received:"])
  ∧ (∀ p0, d ≫= payload = Some p0 → p0 ≠ EmptyString →
       JSON_parse p0 = Some JNull →
       ∃ w', next JSON_parse d w = (Ok (), w') ∧ view w' = view w
         ∧ console w' = console w ++ [Log "New chat message received:";
                                      Error "Error processing chat payload:"])
  ∧ (∀ p0 parsed, d ≫= payload = Some p0 → p0 ≠ EmptyString →
       JSON_parse p0 = Some parsed → parsed ≠ JNull →
       truthy (prop "trace" parsed) = false →
       truthy_str (d ≫= bot) = false →
       ∃ w', next JSON_parse d w = (Ok (), w') ∧ view w' = view w
         ∧ console w' = console w ++ [Log "New chat message received:"]).
Proof.
  split; [|split].
  - intros Hp.
    assert (Hwp : wp (next JSON_parse d) (λ _ w', view w' = view w
      ∧ console w' = console w ++ [Log "New chat message received:"]) w).
    { unfold next. apply wp_bind, wp_console_log, wp_bind.
      destruct (d ≫= payload) as [p0|]; [|done].
      apply wp_when. rewrite Hp. done. }
    destruct (wp_returns _ _ _ Hwp) as ([] & w' & E & H). by exists w'.
  - intros p0 Hp Hne Hparse.
    assert (Hwp : wp (next JSON_parse d) (λ _ w', view w' = view w
      ∧ console w' = console w ++ [Log "New chat message received:";
                                   Error "Error processing chat payload:"]) w).
    { unfold next. apply wp_bind, wp_console_log, wp_bind. rewrite Hp.
      apply wp_when.
      replace (truthy_str (Some p0)) with true
        by (symmetry; simpl; by apply negb_true_iff, String.eqb_neq).
      apply wp_try_catch. rewrite parse_bind, Hparse, member_bind.
      unfold wp. simpl. by rewrite <- app_assoc. }
    destruct (wp_returns _ _ _ Hwp) as ([] & w' & E & H). by exists w'.
  - intros p0 parsed Hp Hne Hparse Hnull Htr Hbot.
    assert (Hwp : wp (next JSON_parse d) (λ _ w', view w' = view w
      ∧ console w' = console w ++ [Log "New chat message received:"]) w).
    { unfold next. apply wp_bind, wp_console_log, wp_bind. rewrite Hp.
      apply wp_when.
      replace (truthy_str (Some p0)) with true
        by (symmetry; simpl; by apply negb_true_iff, String.eqb_neq).
      apply wp_try_catch. rewrite parse_bind, Hparse, member_bind.
      destruct parsed; try done; cbv beta; rewrite Htr, Hbot; done. }
    destruct (wp_returns _ _ _ Hwp) as ([] & w' & E & H). by exists w'.
Qed.

End Ignored.

Lemma ignored_events_witness :
  ∃ w', next sample_parse (Some null_payload_event) initialWorld = (Ok (), w')
    ∧ view w' = view initialWorld
    ∧ console w' = [Log "New chat message received:";
                    Error "Error processing chat payload:"].
Proof.
  destruct (ignored_events sample_parse (Some null_payload_event)
              initialWorld) as (_ & H & _).
  apply (H "null"); [reflexivity|discriminate|reflexivity].
Defined.

(** X20.  A trace with action "modelInvocationOutput" and no collaborator
    name only writes to the "supervisor" history: one entry if the text
    is truthy, none otherwise; edges, statistics and nodes stay, and unless
    the event carries a bot reply no timer is set. *)
Theorem supervisor_output_only_traces trace chatData w p :
  agentFlowRef w = Some p → good w →
  trace_action trace = Some (JStr "modelInvocationOutput") →
  truthy (trace_collaborator trace) = false →
  ∃ w' p',
    handleTraceUpdate trace chatData w = (Ok (), w')
    ∧ agentFlowRef w' = Some p'
    ∧ node_traces p' "supervisor" =
        node_traces p "supervisor"
        ++ (if truthy (trace_text trace)
            then [ {| timestamp := clock w;
                      text := or_empty (trace_text trace) |} ]
            else [])
    ∧ nodes p' = nodes p ∧ edges p' = edges p ∧ edgeStats p' = edgeStats p
    ∧ (truthy_str (chatData ≫= bot) = false → timers w' = timers w).
Proof.
  intros Hr Hg Ha Hc.
  pose proof (good_attached w p Hr Hg) as Hwf.
  assert (Hmain : wp (handleTraceUpdate trace chatData) (λ _ w', ∃ p',
    agentFlowRef w' = Some p'
    ∧ node_traces p' "supervisor" =
        node_traces p "supervisor"
        ++ (if truthy (trace_text trace)
            then [ {| timestamp := clock w;
                      text := or_empty (trace_text trace) |} ]
            else [])
    ∧ nodes p' = nodes p ∧ edges p' = edges p ∧ edgeStats p' = edgeStats p
    ∧ (truthy_str (chatData ≫= bot) = false → timers w' = timers w)) w).
  { unfold handleTraceUpdate.
    apply wp_bind, wp_console_log, wp_bind, wp_now. simpl.
    apply wp_bind. unfold classify. rewrite Ha, Hc. simpl.
    eapply step_trace; [exact Hr|done|in_list|].
    intros p1 Hwf1 N1 E1 S1 T1 D1.
    eapply wp_mono; [eapply respond_spec; [reflexivity|done]|].
    intros _ w' (p' & Hr' & Hwf' & Hck & N4 & E4 & S4 & D4 & Hreply).
    exists p'. split; [done|]. split.
    { unfold node_traces in *. by rewrite D4. }
    split; [congruence|]. split; [congruence|]. split; [congruence|].
    intros Hbot. destruct (chatData ≫= bot) as [reply|];
      [rewrite Hbot in Hreply|]; by destruct Hreply as [_ ->]. }
  destruct (wp_returns _ _ _ Hmain) as ([] & w' & Hrun & p' & H).
  by exists w', p'.
Qed.

Lemma supervisor_output_only_traces_witness :
  ∃ w' p',
    handleTraceUpdate trace_supervisor_output None initialWorld = (Ok (), w')
    ∧ agentFlowRef w' = Some p'
    ∧ node_traces p' "supervisor"
      = [ {| timestamp := 0; text := JStr "summary" |} ]
    ∧ edges p' = edges initialPanel.
Proof.
  destruct (supervisor_output_only_traces trace_supervisor_output None
              initialWorld initialPanel)
    as (w' & p' & H1 & H2 & H3 & _ & H4 & _);
    [reflexivity|by_compute|reflexivity|reflexivity|].
  exists w', p'. repeat split; assumption.
Defined.

(** X21.  A trace whose action is neither "modelInvocationInput" nor
    "modelInvocationOutput" (an unknown tag, a trace without content, a
    trace that is not an object) matches no branch: it is processed exactly
    like a null trace, and with no bot reply only the console line is
    added. *)
Theorem unknown_action_ignored trace chatData w :
  is_str (trace_action trace) "modelInvocationInput" = false →
  is_str (trace_action trace) "modelInvocationOutput" = false →
  handleTraceUpdate trace chatData w = handleTraceUpdate JNull chatData w
  ∧ (truthy_str (chatData ≫= bot) = false →
     handleTraceUpdate trace chatData w
     = (Ok (), with_console (console w ++ [Log "Processing trace:"]) w)).
Proof.
  intros H1 H2.
  assert (Hclass : ∀ entry, classify trace entry = mret ()).
  { intros entry. unfold classify. by rewrite H1, H2. }
  assert (Heq : handleTraceUpdate trace chatData w
                = handleTraceUpdate JNull chatData w).
  { unfold handleTraceUpdate, mbind, M_bind. simpl. by rewrite Hclass. }
  split; [done|]. intros Hbot.
  unfold handleTraceUpdate, mbind, M_bind. simpl. rewrite Hclass. simpl.
  by rewrite respond_silent.
Qed.

Lemma unknown_action_ignored_witness :
  handleTraceUpdate trace_other_action None initialWorld
  = (Ok (), with_console [Log "Processing trace:"] initialWorld).
Proof.
  destruct (unknown_action_ignored trace_other_action None initialWorld)
    as [_ H]; [reflexivity|reflexivity|].
  apply H. reflexivity.
Defined.
